(** * OracleReader: the redo-log reader of OpenLogReplicator

    A shallow embedding of [src/OracleReader.cpp] and the properties of its
    byte codec, checkpoint file, catalog and scheduler loop. *)

From Stdlib Require Import ZArith Lia Zbitwise String Ascii Sorted Btauto.
From stdpp Require Import base gmap list strings pretty.

Local Open Scope Z_scope.

(** ** Machine integers

    Unsigned C integers are values of [Z]; a conversion to a w-bit type
    reduces modulo [2^w]. *)

Definition u8 (x : Z) : Z := x mod 2 ^ 8.
Definition u16 (x : Z) : Z := x mod 2 ^ 16.
Definition u32 (x : Z) : Z := x mod 2 ^ 32.
Definition u64 (x : Z) : Z := x mod 2 ^ 64.

(** [x << n] computed in [uint32_t], resp. [uint64_t]. *)
Definition shl32 (x n : Z) : Z := u32 (Z.shiftl x n).
Definition shl64 (x n : Z) : Z := u64 (Z.shiftl x n).

Local Infix ".|" := Z.lor (at level 50, left associativity).
Local Infix ".&" := Z.land (at level 40, left associativity).
Local Infix ">>" := Z.shiftr (at level 35, no associativity).

(** Modelled from the spec: the macro [ZERO_SCN] of [types.h], which is not
    part of the sources at hand; the spec calls it the all-ones marker of
    the 64-bit type [typescn]. *)
Definition ZERO_SCN : Z := 0xFFFFFFFFFFFFFFFF.

(** ** Byte buffers

    A [uint8_t*] argument is the list of the bytes it points to.  [buf[i]]
    reads position [i]; [buf[i] = x] stores [x] converted to [uint8_t].
    The source never checks a length: every statement below about a buffer
    of [n] bytes assumes the list has at least [n] elements. *)

Definition get (buf : list Z) (i : nat) : Z := buf !!! i.
Definition put (i : nat) (x : Z) (buf : list Z) : list Z := <[i := u8 x]> buf.

(** ** Readers *)

Definition read16Little (buf : list Z) : Z :=
  u16 (get buf 0 .| Z.shiftl (get buf 1) 8).

Definition read16Big (buf : list Z) : Z :=
  u16 (Z.shiftl (get buf 0) 8 .| get buf 1).

Definition read32Little (buf : list Z) : Z :=
  get buf 0 .| shl32 (get buf 1) 8 .|
  shl32 (get buf 2) 16 .| shl32 (get buf 3) 24.

Definition read32Big (buf : list Z) : Z :=
  shl32 (get buf 0) 24 .| shl32 (get buf 1) 16 .|
  shl32 (get buf 2) 8 .| get buf 3.

Definition read56Little (buf : list Z) : Z :=
  get buf 0 .| shl64 (get buf 1) 8 .|
  shl64 (get buf 2) 16 .| shl64 (get buf 3) 24 .|
  shl64 (get buf 4) 32 .| shl64 (get buf 5) 40 .|
  shl64 (get buf 6) 48.

Definition read56Big (buf : list Z) : Z :=
  shl64 (get buf 0) 48 .| shl64 (get buf 1) 40 .|
  shl64 (get buf 2) 32 .| shl64 (get buf 3) 24 .|
  shl64 (get buf 4) 16 .| shl64 (get buf 5) 8 .|
  get buf 6.

Definition read64Little (buf : list Z) : Z :=
  get buf 0 .| shl64 (get buf 1) 8 .|
  shl64 (get buf 2) 16 .| shl64 (get buf 3) 24 .|
  shl64 (get buf 4) 32 .| shl64 (get buf 5) 40 .|
  shl64 (get buf 6) 48 .| shl64 (get buf 7) 56.

Definition read64Big (buf : list Z) : Z :=
  shl64 (get buf 0) 56 .| shl64 (get buf 1) 48 .|
  shl64 (get buf 2) 40 .| shl64 (get buf 3) 32 .|
  shl64 (get buf 4) 24 .| shl64 (get buf 5) 16 .|
  shl64 (get buf 6) 8 .| get buf 7.

(** The test shared by the four SCN readers: the first six bytes are 0xFF. *)
Definition sixFF (buf : list Z) : bool :=
  (get buf 0 =? 0xFF) && (get buf 1 =? 0xFF) && (get buf 2 =? 0xFF) &&
  (get buf 3 =? 0xFF) && (get buf 4 =? 0xFF) && (get buf 5 =? 0xFF).

Definition readSCNLittle (buf : list Z) : Z :=
  if sixFF buf then ZERO_SCN
  else if get buf 5 .& 0x80 =? 0x80 then
    get buf 0 .| shl64 (get buf 1) 8 .|
    shl64 (get buf 2) 16 .| shl64 (get buf 3) 24 .|
    shl64 (get buf 6) 32 .| shl64 (get buf 7) 40 .|
    shl64 (get buf 4) 48 .| shl64 (get buf 5 .& 0x7F) 56
  else
    get buf 0 .| shl64 (get buf 1) 8 .|
    shl64 (get buf 2) 16 .| shl64 (get buf 3) 24 .|
    shl64 (get buf 4) 32 .| shl64 (get buf 5) 40.

Definition readSCNBig (buf : list Z) : Z :=
  if sixFF buf then ZERO_SCN
  else if get buf 0 .& 0x80 =? 0x80 then
    get buf 5 .| shl64 (get buf 4) 8 .|
    shl64 (get buf 3) 16 .| shl64 (get buf 2) 24 .|
    shl64 (get buf 7) 32 .| shl64 (get buf 6) 40 .|
    shl64 (get buf 1) 48 .| shl64 (get buf 0 .& 0x7F) 56
  else
    get buf 5 .| shl64 (get buf 4) 8 .|
    shl64 (get buf 3) 16 .| shl64 (get buf 2) 24 .|
    shl64 (get buf 1) 32 .| shl64 (get buf 0) 40.

Definition readSCNrLittle (buf : list Z) : Z :=
  if sixFF buf then ZERO_SCN
  else if get buf 1 .& 0x80 =? 0x80 then
    get buf 2 .| shl64 (get buf 3) 8 .|
    shl64 (get buf 4) 16 .| shl64 (get buf 5) 24 .|
    shl64 (get buf 0) 48 .| shl64 (get buf 1 .& 0x7F) 56
  else
    get buf 2 .| shl64 (get buf 3) 8 .|
    shl64 (get buf 4) 16 .| shl64 (get buf 5) 24 .|
    shl64 (get buf 0) 32 .| shl64 (get buf 1) 40.

Definition readSCNrBig (buf : list Z) : Z :=
  if sixFF buf then ZERO_SCN
  else if get buf 1 .& 0x80 =? 0x80 then
    get buf 5 .| shl64 (get buf 4) 8 .|
    shl64 (get buf 3) 16 .| shl64 (get buf 2) 24 .|
    shl64 (get buf 1) 48 .| shl64 (get buf 0 .& 0x7F) 56
  else
    get buf 5 .| shl64 (get buf 4) 8 .|
    shl64 (get buf 3) 16 .| shl64 (get buf 2) 24 .|
    shl64 (get buf 1) 32 .| shl64 (get buf 0) 40.

(** ** Writers

    The assignments are listed in the order of the source. *)

Definition write16Little (buf : list Z) (val : Z) : list Z :=
  put 1 ((val >> 8) .& 0xFF) (put 0 (val .& 0xFF) buf).

Definition write16Big (buf : list Z) (val : Z) : list Z :=
  put 1 (val .& 0xFF) (put 0 ((val >> 8) .& 0xFF) buf).

Definition write32Little (buf : list Z) (val : Z) : list Z :=
  put 3 ((val >> 24) .& 0xFF) (put 2 ((val >> 16) .& 0xFF)
  (put 1 ((val >> 8) .& 0xFF) (put 0 (val .& 0xFF) buf))).

Definition write32Big (buf : list Z) (val : Z) : list Z :=
  put 3 (val .& 0xFF) (put 2 ((val >> 8) .& 0xFF)
  (put 1 ((val >> 16) .& 0xFF) (put 0 ((val >> 24) .& 0xFF) buf))).

Definition write56Little (buf : list Z) (val : Z) : list Z :=
  put 6 ((val >> 48) .& 0xFF) (put 5 ((val >> 40) .& 0xFF)
  (put 4 ((val >> 32) .& 0xFF) (put 3 ((val >> 24) .& 0xFF)
  (put 2 ((val >> 16) .& 0xFF) (put 1 ((val >> 8) .& 0xFF)
  (put 0 (val .& 0xFF) buf)))))).

Definition write56Big (buf : list Z) (val : Z) : list Z :=
  put 6 (val .& 0xFF) (put 5 ((val >> 8) .& 0xFF)
  (put 4 ((val >> 16) .& 0xFF) (put 3 ((val >> 24) .& 0xFF)
  (put 2 ((val >> 32) .& 0xFF) (put 1 ((val >> 40) .& 0xFF)
  (put 0 ((val >> 48) .& 0xFF) buf)))))).

Definition write64Little (buf : list Z) (val : Z) : list Z :=
  put 7 ((val >> 56) .& 0xFF) (put 6 ((val >> 48) .& 0xFF)
  (put 5 ((val >> 40) .& 0xFF) (put 4 ((val >> 32) .& 0xFF)
  (put 3 ((val >> 24) .& 0xFF) (put 2 ((val >> 16) .& 0xFF)
  (put 1 ((val >> 8) .& 0xFF) (put 0 (val .& 0xFF) buf))))))).

Definition write64Big (buf : list Z) (val : Z) : list Z :=
  put 7 (val .& 0xFF) (put 6 ((val >> 8) .& 0xFF)
  (put 5 ((val >> 16) .& 0xFF) (put 4 ((val >> 24) .& 0xFF)
  (put 3 ((val >> 32) .& 0xFF) (put 2 ((val >> 40) .& 0xFF)
  (put 1 ((val >> 48) .& 0xFF) (put 0 ((val >> 56) .& 0xFF) buf))))))).

Definition writeSCNLittle (buf : list Z) (val : Z) : list Z :=
  if val <? 0x800000000000 then
    put 5 ((val >> 40) .& 0xFF) (put 4 ((val >> 32) .& 0xFF)
    (put 3 ((val >> 24) .& 0xFF) (put 2 ((val >> 16) .& 0xFF)
    (put 1 ((val >> 8) .& 0xFF) (put 0 (val .& 0xFF) buf)))))
  else
    put 7 ((val >> 40) .& 0xFF) (put 6 ((val >> 32) .& 0xFF)
    (put 5 (((val >> 56) .& 0xFF) .| 0x80) (put 4 ((val >> 48) .& 0xFF)
    (put 3 ((val >> 24) .& 0xFF) (put 2 ((val >> 16) .& 0xFF)
    (put 1 ((val >> 8) .& 0xFF) (put 0 (val .& 0xFF) buf))))))).

Definition writeSCNBig (buf : list Z) (val : Z) : list Z :=
  if val <? 0x800000000000 then
    put 0 ((val >> 40) .& 0xFF) (put 1 ((val >> 32) .& 0xFF)
    (put 2 ((val >> 24) .& 0xFF) (put 3 ((val >> 16) .& 0xFF)
    (put 4 ((val >> 8) .& 0xFF) (put 5 (val .& 0xFF) buf)))))
  else
    put 6 ((val >> 40) .& 0xFF) (put 7 ((val >> 32) .& 0xFF)
    (put 0 (((val >> 56) .& 0xFF) .| 0x80) (put 1 ((val >> 48) .& 0xFF)
    (put 2 ((val >> 24) .& 0xFF) (put 3 ((val >> 16) .& 0xFF)
    (put 4 ((val >> 8) .& 0xFF) (put 5 (val .& 0xFF) buf))))))).

(** ** The function table

    The constructor installs the little-endian functions; [initialize]
    replaces all of them when the database reports the [Big] format. *)

Record Codec := {
  read16 : list Z -> Z;
  read32 : list Z -> Z;
  read56 : list Z -> Z;
  read64 : list Z -> Z;
  readSCN : list Z -> Z;
  readSCNr : list Z -> Z;
  write16 : list Z -> Z -> list Z;
  write32 : list Z -> Z -> list Z;
  write56 : list Z -> Z -> list Z;
  write64 : list Z -> Z -> list Z;
  writeSCN : list Z -> Z -> list Z
}.

Definition littleCodec : Codec := {|
  read16 := read16Little; read32 := read32Little;
  read56 := read56Little; read64 := read64Little;
  readSCN := readSCNLittle; readSCNr := readSCNrLittle;
  write16 := write16Little; write32 := write32Little;
  write56 := write56Little; write64 := write64Little;
  writeSCN := writeSCNLittle |}.

Definition bigCodec : Codec := {|
  read16 := read16Big; read32 := read32Big;
  read56 := read56Big; read64 := read64Big;
  readSCN := readSCNBig; readSCNr := readSCNrBig;
  write16 := write16Big; write32 := write32Big;
  write56 := write56Big; write64 := write64Big;
  writeSCN := writeSCNBig |}.

Definition codecOf (bigEndian : bool) : Codec :=
  if bigEndian then bigCodec else littleCodec.

(** The number of bytes that [writeSCN] assigns. *)
Definition scnSize (val : Z) : nat :=
  if val <? 0x800000000000 then 6%nat else 8%nat.

(** The values whose low 32 bits and bits 48 to 62 are all ones:
    0x7FFF????FFFFFFFF. *)
Definition scnAllOnes (val : Z) : Prop :=
  val mod 2 ^ 32 = 0xFFFFFFFF /\ val / 2 ^ 48 = 0x7FFF.

(** ** Answers of the database

    The client library is outside the program.  A result set is the rows
    that [next()] delivers, in order; [rsThrow] marks the point where the
    library raises [SQLException] (at [executeQuery] when it comes first). *)

Inductive ResultSet (A : Type) : Type :=
  | rsEnd
  | rsRow (row : A) (rest : ResultSet A)
  | rsThrow.

Arguments rsEnd {A}.
Arguments rsRow {A} row rest.
Arguments rsThrow {A}.

(** A row of the [SYS.TAB$] query of [addTable]; a column that may be NULL
    is an [option]. *)
Record TabRow := {
  t_objd : option Z;
  t_objn : Z;
  t_clucols : option Z;
  t_owner : string;
  t_objectName : string;
  t_dependencies : Z
}.

(** A row of the [SYS.COL$] query of [addTable]. *)
Record ColRow := {
  c_colNo : Z;
  c_segColNo : Z;
  c_name : string;
  c_typeNo : Z;
  c_length : Z;
  c_precision : option Z;
  c_scale : option Z;
  c_null : Z;
  c_numPk : Z
}.

(** The row of the [V_$DATABASE] query of [initialize]. *)
Record DatabaseRow := {
  LOG_MODE : string;
  SUPPLEMENTAL_LOG_MIN : string;
  ENDIANNESS : string;
  CURRENT_SCN : Z;
  RESETLOGS_ID : Z;
  VERSION : string;
  DB_NAME : string
}.

(** A row of the [V_$ARCHIVED_LOG] query of [archLogGetList]. *)
Record ArchRow := {
  a_name : string;
  a_sequence : Z;
  a_firstScn : Z;
  a_nextScn : Z
}.

Record Database := {
  db_connected : bool;
  db_info : ResultSet DatabaseRow;
  db_conId : ResultSet Z;
  db_currentLog : ResultSet Z;
  db_tables : string -> ResultSet TabRow;
  db_columns : Z -> ResultSet ColRow;
  db_archivedLogs : Z -> Z -> ResultSet ArchRow
}.

(** ** Catalog *)

(** Modelled from the spec: class [OracleColumn] of [OracleColumn.h], which
    is not part of the sources at hand; the fields are the nine constructor
    arguments that [addTable] passes, in its order. *)
Record OracleColumn := {
  colNo : Z;
  segColNo : Z;
  columnName : string;
  typeNo : Z;
  columnLength : Z;
  precision : Z;
  scale : Z;
  numPk : Z;
  nullable : bool
}.

(** Modelled from the spec: class [OracleObject] of [OracleObject.h], which
    is not part of the sources at hand: the table descriptor with its
    identifiers, owner and name, [cluCols], [options], the ordered columns
    and the two totals. *)
Record OracleObject := {
  objn : Z;
  objd : Z;
  depdendencies : Z;
  cluCols : Z;
  options : Z;
  owner : string;
  objectName : string;
  columns : list OracleColumn;
  totalCols : Z;
  totalPk : Z
}.

(** Modelled from the spec: the constructor of [OracleObject], which stores
    its seven arguments in the fields of the same names and starts with no
    column. *)
Definition newOracleObject (objn objd depdendencies cluCols options : Z)
    (owner objectName : string) : OracleObject :=
  {| objn := objn; objd := objd; depdendencies := depdendencies;
     cluCols := cluCols; options := options;
     owner := owner; objectName := objectName;
     columns := []; totalCols := 0; totalPk := 0 |}.

(** Modelled from the spec: [OracleObject::addColumn], which appends to the
    ordered list of columns. *)
Definition addColumn (column : OracleColumn) (object : OracleObject) : OracleObject :=
  {| objn := objn object; objd := objd object;
     depdendencies := depdendencies object;
     cluCols := cluCols object; options := options object;
     owner := owner object; objectName := objectName object;
     columns := columns object ++ [column];
     totalCols := totalCols object; totalPk := totalPk object |}.

Definition setTotals (totalCols totalPk : Z) (object : OracleObject) : OracleObject :=
  {| objn := objn object; objd := objd object;
     depdendencies := depdendencies object;
     cluCols := cluCols object; options := options object;
     owner := owner object; objectName := objectName object;
     columns := columns object;
     totalCols := totalCols; totalPk := totalPk |}.

(** [objectMap] maps an object number to a pointer: [None] is [nullptr].
    [objectMap[k]] is the subscript of the standard map: it yields the value
    stored under [k], and when there is no entry it first inserts one that
    holds the null pointer. *)
Definition subscript (objectMap : gmap Z (option OracleObject)) (k : Z)
    : option OracleObject * gmap Z (option OracleObject) :=
  match objectMap !! k with
  | Some p => (p, objectMap)
  | None => (None, <[k := None]> objectMap)
  end.

Definition checkDict (objn objd : Z) (objectMap : gmap Z (option OracleObject))
    : option OracleObject * gmap Z (option OracleObject) :=
  subscript objectMap objn.

Definition addToDict (object : OracleObject) (objectMap : gmap Z (option OracleObject))
    : gmap Z (option OracleObject) :=
  let '(p, objectMap) := subscript objectMap (objn object) in
  match p with
  | None => <[objn object := Some object]> objectMap
  | Some _ => objectMap
  end.

(** The descriptor a reader of the catalog sees under [k]: a null entry and
    a missing entry are both no descriptor. *)
Definition descriptor (objectMap : gmap Z (option OracleObject)) (k : Z)
    : option OracleObject :=
  mjoin (objectMap !! k).

(** The inner loop of [addTable] over the columns of one table.  [None]
    stands for the [SQLException] that leaves both loops. *)
Fixpoint readColumns (rset : ResultSet ColRow) (object : OracleObject)
    (totalPk totalCols : Z) : option (OracleObject * Z * Z) :=
  match rset with
  | rsEnd => Some (object, totalPk, totalCols)
  | rsThrow => None
  | rsRow row rest =>
      let precision := match c_precision row with Some p => p | None => -1 end in
      let scale := match c_scale row with Some p => p | None => -1 end in
      let nullable := c_null row in
      let numPk := c_numPk row in
      let column :=
        {| colNo := c_colNo row; segColNo := c_segColNo row;
           columnName := c_name row; typeNo := c_typeNo row;
           columnLength := c_length row;
           precision := precision; scale := scale; numPk := numPk;
           nullable := (nullable =? 0) |} in
      readColumns rest (addColumn column object)
        (u64 (totalPk + numPk)) (u64 (totalCols + 1))
  end.

(** The outer loop of [addTable]; the result is the catalog and [tabCnt].
    The value of CLUCOLS is fetched and dropped: [cluCols] stays 0. *)
Fixpoint addTableRows (columnsOf : Z -> ResultSet ColRow) (options : Z)
    (rset : ResultSet TabRow) (tabCnt : Z)
    (objectMap : gmap Z (option OracleObject))
    : gmap Z (option OracleObject) * Z :=
  match rset with
  | rsEnd => (objectMap, tabCnt)
  | rsThrow => (objectMap, tabCnt)
  | rsRow row rest =>
      let owner := t_owner row in
      let objectName := t_objectName row in
      let objn := t_objn row in
      match t_objd row with
      | None => addTableRows columnsOf options rest tabCnt objectMap
      | Some objd =>
          let cluCols := 0 in
          let _ := match t_clucols row with Some n => n | None => 0 end in
          let depdendencies := t_dependencies row in
          let object :=
            newOracleObject objn objd depdendencies cluCols options owner objectName in
          let tabCnt := u64 (tabCnt + 1) in
          match readColumns (columnsOf objn) object 0 0 with
          | None => (objectMap, tabCnt)
          | Some (object, totalPk, totalCols) =>
              let object := setTotals totalCols totalPk object in
              addTableRows columnsOf options rest tabCnt (addToDict object objectMap)
          end
      end
  end.

(** [addTable] with an established connection. *)
Definition addTable (db : Database) (mask : string) (options : Z)
    (objectMap : gmap Z (option OracleObject)) : gmap Z (option OracleObject) * Z :=
  addTableRows (db_columns db) options (db_tables db mask) 0 objectMap.

(** ** Reader state *)

(** Modelled from the spec: class [Transaction] of [Transaction.h], which is
    not part of the sources at hand; [firstSequence] is the one field that
    this file reads. *)
Record Transaction := {
  firstSequence : Z
}.

#[global] Instance Transaction_inhabited : Inhabited Transaction :=
  populate {| firstSequence := 0 |}.

(** Modelled from the spec: class [TransactionHeap], which is not part of
    the sources at hand.  The open transactions are [heap[1]] to
    [heap[heapSize]]; position 0 is not used. *)
Record TransactionHeap := {
  heapSize : nat;
  heap : list Transaction
}.

(** The transactions that are open. *)
Definition openTransactions (h : TransactionHeap) : list Transaction :=
  take (heapSize h) (drop 1 (heap h)).

(** The array has the positions 1 to [heapSize]. *)
Definition heapValid (h : TransactionHeap) : Prop :=
  heapSize h = 0%nat \/ (heapSize h < length (heap h))%nat.

(** A log handle, with the fields that this file reads or assigns. *)
Record OracleReaderRedo := {
  group : Z;
  path : string;
  sequence : Z;
  firstScn : Z;
  nextScn : Z
}.

Record OracleReader := {
  database : string;
  databaseContext : string;
  databaseSequence : Z;
  databaseScn : Z;
  resetlogs : Z;
  conId : Z;
  bigEndian : bool;
  codec : Codec;
  transactionHeap : TransactionHeap;
  archiveRedoQueue : list OracleReaderRedo;
  previousCheckpoint : Z;
  shutdown : bool
}.

Definition set_databaseSequence (x : Z) (r : OracleReader) : OracleReader :=
  {| database := database r; databaseContext := databaseContext r;
     databaseSequence := x; databaseScn := databaseScn r;
     resetlogs := resetlogs r; conId := conId r;
     bigEndian := bigEndian r; codec := codec r;
     transactionHeap := transactionHeap r;
     archiveRedoQueue := archiveRedoQueue r;
     previousCheckpoint := previousCheckpoint r; shutdown := shutdown r |}.

Definition set_databaseScn (x : Z) (r : OracleReader) : OracleReader :=
  {| database := database r; databaseContext := databaseContext r;
     databaseSequence := databaseSequence r; databaseScn := x;
     resetlogs := resetlogs r; conId := conId r;
     bigEndian := bigEndian r; codec := codec r;
     transactionHeap := transactionHeap r;
     archiveRedoQueue := archiveRedoQueue r;
     previousCheckpoint := previousCheckpoint r; shutdown := shutdown r |}.

Definition set_resetlogs (x : Z) (r : OracleReader) : OracleReader :=
  {| database := database r; databaseContext := databaseContext r;
     databaseSequence := databaseSequence r; databaseScn := databaseScn r;
     resetlogs := x; conId := conId r;
     bigEndian := bigEndian r; codec := codec r;
     transactionHeap := transactionHeap r;
     archiveRedoQueue := archiveRedoQueue r;
     previousCheckpoint := previousCheckpoint r; shutdown := shutdown r |}.

Definition set_conId (x : Z) (r : OracleReader) : OracleReader :=
  {| database := database r; databaseContext := databaseContext r;
     databaseSequence := databaseSequence r; databaseScn := databaseScn r;
     resetlogs := resetlogs r; conId := x;
     bigEndian := bigEndian r; codec := codec r;
     transactionHeap := transactionHeap r;
     archiveRedoQueue := archiveRedoQueue r;
     previousCheckpoint := previousCheckpoint r; shutdown := shutdown r |}.

Definition set_databaseContext (x : string) (r : OracleReader) : OracleReader :=
  {| database := database r; databaseContext := x;
     databaseSequence := databaseSequence r; databaseScn := databaseScn r;
     resetlogs := resetlogs r; conId := conId r;
     bigEndian := bigEndian r; codec := codec r;
     transactionHeap := transactionHeap r;
     archiveRedoQueue := archiveRedoQueue r;
     previousCheckpoint := previousCheckpoint r; shutdown := shutdown r |}.

(** The twelve assignments of [initialize] for the [Big] format. *)
Definition set_bigEndian (r : OracleReader) : OracleReader :=
  {| database := database r; databaseContext := databaseContext r;
     databaseSequence := databaseSequence r; databaseScn := databaseScn r;
     resetlogs := resetlogs r; conId := conId r;
     bigEndian := true; codec := bigCodec;
     transactionHeap := transactionHeap r;
     archiveRedoQueue := archiveRedoQueue r;
     previousCheckpoint := previousCheckpoint r; shutdown := shutdown r |}.

Definition set_archiveRedoQueue (x : list OracleReaderRedo) (r : OracleReader)
    : OracleReader :=
  {| database := database r; databaseContext := databaseContext r;
     databaseSequence := databaseSequence r; databaseScn := databaseScn r;
     resetlogs := resetlogs r; conId := conId r;
     bigEndian := bigEndian r; codec := codec r;
     transactionHeap := transactionHeap r;
     archiveRedoQueue := x;
     previousCheckpoint := previousCheckpoint r; shutdown := shutdown r |}.

Definition set_previousCheckpoint (x : Z) (r : OracleReader) : OracleReader :=
  {| database := database r; databaseContext := databaseContext r;
     databaseSequence := databaseSequence r; databaseScn := databaseScn r;
     resetlogs := resetlogs r; conId := conId r;
     bigEndian := bigEndian r; codec := codec r;
     transactionHeap := transactionHeap r;
     archiveRedoQueue := archiveRedoQueue r;
     previousCheckpoint := x; shutdown := shutdown r |}.

(** ** Checkpoint file *)

(** The files of the working directory: the text of each file that exists,
    and the paths that cannot be opened for writing. *)
Record Files := {
  contents : gmap string string;
  unwritable : gset string
}.

Definition checkpointPath (database : string) : string :=
  database +:+ ".json".

Definition endl : string := String "010"%char EmptyString.
Definition quote : string := String "034"%char EmptyString.

Record Checkpoint := {
  cp_database : string;
  cp_sequence : Z;
  cp_scn : Z;
  cp_resetlogs : Z
}.

(** The text that [writeCheckpoint] assembles in its string stream. *)
Definition checkpointText (c : Checkpoint) : string :=
  "{" +:+ endl +:+
  "  " +:+ quote +:+ "database" +:+ quote +:+ ": " +:+
    quote +:+ cp_database c +:+ quote +:+ "," +:+ endl +:+
  "  " +:+ quote +:+ "sequence" +:+ quote +:+ ": " +:+
    pretty (cp_sequence c) +:+ "," +:+ endl +:+
  "  " +:+ quote +:+ "scn" +:+ quote +:+ ": " +:+
    pretty (cp_scn c) +:+ "," +:+ endl +:+
  "  " +:+ quote +:+ "resetlogs" +:+ quote +:+ ": " +:+
    pretty (cp_resetlogs c) +:+ endl +:+
  "}".

(** The body of the loop of [writeCheckpoint]. *)
Definition keepSmaller (minSequence : Z) (transaction : Transaction) : Z :=
  if minSequence >? firstSequence transaction
  then firstSequence transaction else minSequence.

(** The loop of [writeCheckpoint] over [heap[1]] .. [heap[heapSize]],
    started at 0xFFFFFFFF. *)
Definition minFirstSequence (h : TransactionHeap) : Z :=
  foldl (fun minSequence i => keepSmaller minSequence (heap h !!! i))
        0xFFFFFFFF (seq 1 (heapSize h)).

(** [now] is the value of [clock()].  [atShutdown] only selects a message. *)
Definition writeCheckpoint (atShutdown : bool) (now : Z)
    (r : OracleReader) (fs : Files) : OracleReader * Files :=
  let minSequence := minFirstSequence (transactionHeap r) in
  let minSequence :=
    if minSequence =? 0xFFFFFFFF then databaseSequence r else minSequence in
  let outfile := checkpointPath (database r) in
  if bool_decide (outfile ∈ unwritable fs) then (r, fs)
  else
    let ss := checkpointText
      {| cp_database := database r; cp_sequence := minSequence;
         cp_scn := databaseScn r; cp_resetlogs := resetlogs r |} in
    (set_previousCheckpoint now r,
     {| contents := <[outfile := ss]> (contents fs);
        unwritable := unwritable fs |}).

(** The JSON library is outside the program.  A document is the members of
    the parsed object; a value is a string, an unsigned 64-bit number, or
    something else. *)
Inductive JValue :=
  | JString (s : string)
  | JUint64 (n : Z)
  | JOther.

(** Modelled from the spec: [getJSONfield], which the file declares at its
    head and does not define.  The loader reads the keys of the JSON object
    of the checkpoint: the member of that name is the result, and the call
    does not return when there is none. *)
Definition getJSONfield (document : gmap string JValue) (field : string)
    : option JValue :=
  document !! field.

Definition GetString (v : JValue) : option string :=
  match v with JString s => Some s | _ => None end.

Definition GetUint64 (v : JValue) : option Z :=
  match v with JUint64 n => Some n | _ => None end.

Section ReadCheckpoint.

(** [document.Parse]: the members of the object, or [None] on a parse
    error. *)
Variable Parse : string -> option (gmap string JValue).

(** The result is [None] when the call does not return (a member is
    missing or has another type). *)
Definition readCheckpoint (r : OracleReader) (fs : Files) : option OracleReader :=
  match contents fs !! checkpointPath (database r) with
  | None => Some r
  | Some configJSON =>
      if (String.length configJSON =? 0)%nat then Some r
      else
        match Parse configJSON with
        | None => Some r
        | Some document =>
            databaseJSON ← getJSONfield document "database";
            name ← GetString databaseJSON;
            if negb (String.eqb (database r) name) then Some r
            else
              databaseSequenceJSON ← getJSONfield document "sequence";
              seq ← GetUint64 databaseSequenceJSON;
              let r := set_databaseSequence (u32 seq) r in
              resetlogsJSON ← getJSONfield document "resetlogs";
              rl ← GetUint64 resetlogsJSON;
              let r := set_resetlogs (u32 rl) r in
              scnJSON ← getJSONfield document "scn";
              scn ← GetUint64 scnJSON;
              Some (set_databaseScn scn r)
        end
  end.

(** The three cases in which the checkpoint is not taken over: there is no
    file, its text does not parse, or its [database] member is another
    name. *)
Definition checkpointUnusable (r : OracleReader) (fs : Files) : Prop :=
  match contents fs !! checkpointPath (database r) with
  | None => True
  | Some configJSON =>
      match Parse configJSON with
      | None => True
      | Some document =>
          exists name, document !! "database" = Some (JString name) /\
                       name <> database r
      end
  end.

(** The constructor: the initial fields, then [readCheckpoint]. *)
Definition newOracleReader (database : string) (now : Z) (fs : Files)
    : option OracleReader :=
  readCheckpoint
    {| database := database; databaseContext := EmptyString;
       databaseSequence := 0; databaseScn := 0;
       resetlogs := 0; conId := 0;
       bigEndian := false; codec := littleCodec;
       transactionHeap := {| heapSize := 0; heap := [] |};
       archiveRedoQueue := [];
       previousCheckpoint := now; shutdown := false |}
    fs.

End ReadCheckpoint.

(** ** Bootstrap *)

(** The [try] block of [initialize].  The first component is [None] when
    the block leaves with [return 0], and [currentDatabaseScn] otherwise. *)
Definition queryDatabase (db : Database) (r : OracleReader)
    : option Z * OracleReader :=
  match db_info db with
  | rsThrow => (None, r)
  | rsEnd => (None, r)
  | rsRow row _ =>
      if negb (String.eqb (LOG_MODE row) "ARCHIVELOG") then (None, r)
      else if negb (String.eqb (SUPPLEMENTAL_LOG_MIN row) "YES") then (None, r)
      else
        let r := if String.eqb (ENDIANNESS row) "Big" then set_bigEndian r else r in
        let currentDatabaseScn := CURRENT_SCN row in
        let currentResetlogs := RESETLOGS_ID row in
        if negb (resetlogs r =? 0) && negb (currentResetlogs =? resetlogs r)
        then (None, r)
        else
          let r := set_resetlogs currentResetlogs r in
          let r := set_conId 0 r in
          let conIdQuery :=
            match String.index 0 "Oracle Database 11g" (VERSION row) with
            | None => db_conId db
            | Some _ => rsEnd
            end in
          match conIdQuery with
          | rsThrow => (None, r)
          | rsEnd =>
              (Some currentDatabaseScn, set_databaseContext (DB_NAME row) r)
          | rsRow c _ =>
              (Some currentDatabaseScn,
               set_databaseContext (DB_NAME row) (set_conId c r))
          end
  end.

Definition initialize (db : Database) (r : OracleReader) : Z * OracleReader :=
  if negb (db_connected db) then (0, r)
  else
    match queryDatabase db r with
    | (None, r) => (0, r)
    | (Some currentDatabaseScn, r) =>
        let r :=
          if (databaseSequence r =? 0) || (databaseScn r =? 0) then
            match db_currentLog db with
            | rsRow seq _ =>
                set_databaseScn currentDatabaseScn (set_databaseSequence seq r)
            | _ => r
            end
          else r in
        if (databaseSequence r =? 0) || (databaseScn r =? 0) then (0, r)
        else (1, r)
    end.

(** ** Archive queue

    [archiveRedoQueue] is a priority queue whose comparison
    [OracleReaderRedoCompare] puts the smallest [sequence] on top.  It is
    kept as the list of its handles in ascending order of [sequence]:
    [top()] is the head, [pop()] drops the head, [push] inserts behind the
    handles that are not larger. *)

Fixpoint pq_push (x : OracleReaderRedo) (q : list OracleReaderRedo)
    : list OracleReaderRedo :=
  match q with
  | [] => [x]
  | y :: q' => if sequence x <? sequence y then x :: q else y :: pq_push x q'
  end.

(** The order of the queue. *)
Definition seq_le (a b : OracleReaderRedo) : Prop := sequence a <= sequence b.

Definition pq_top (q : list OracleReaderRedo) : option OracleReaderRedo := head q.
Definition pq_pop (q : list OracleReaderRedo) : list OracleReaderRedo := tail q.

(** The loop of [archLogGetList] over the rows of the query. *)
Fixpoint pushArchRows (rset : ResultSet ArchRow) (q : list OracleReaderRedo)
    : list OracleReaderRedo :=
  match rset with
  | rsEnd => q
  | rsThrow => q
  | rsRow row rest =>
      let redo :=
        {| group := 0; path := a_name row; sequence := a_sequence row;
           firstScn := a_firstScn row; nextScn := a_nextScn row |} in
      pushArchRows rest (pq_push redo q)
  end.

Definition archLogGetList (db : Database) (r : OracleReader) : OracleReader :=
  set_archiveRedoQueue
    (pushArchRows (db_archivedLogs db (databaseSequence r) (resetlogs r))
                  (archiveRedoQueue r))
    r.

(** ** Scheduler: the archive phase of [run] *)

(** The variables of [run] that live across iterations, the files, and the
    list of the handles given to [processLog] so far. *)
Record RunState := {
  reader : OracleReader;
  files : Files;
  redo : option OracleReaderRedo;
  ret : Z;
  logsProcessed : bool;
  dispatched : list OracleReaderRedo
}.

(** How one pass through the body of the loop ends: at its closing brace or
    a [continue], at a [break], or in a [throw]. *)
Inductive Outcome :=
  | Continue (s : RunState)
  | Break (s : RunState)
  | Throw (s : RunState).

(** What a bounded run of the loop reports: the loop was left, or it is
    still running in the given state. *)
Inductive LoopResult :=
  | Left (o : Outcome)
  | Running (s : RunState).

Section ArchivePhase.

(** The result codes of [OracleReaderRedo.h], which is not part of the
    sources at hand. *)
Variables REDO_OK REDO_WRONG_SEQUENCE_SWITCHED : Z.

(** [redo->processLog()]: the result code, and the reader and the files as
    the call leaves them. *)
Variable processLog :
  OracleReaderRedo -> OracleReader -> Files -> Z * OracleReader * Files.

(** [redo->clone(redoPrev)]: the handle [redo] after the call. *)
Variable clone : OracleReaderRedo -> OracleReaderRedo -> OracleReaderRedo.

(** The value of [clock()] in [writeCheckpoint]. *)
Variable now : Z.

(** The first statements of the body of [while (!archiveRedoQueue.empty())]:
    the handle on top of the queue, after the clone when the online read of
    the same sequence was cut short. *)
Definition topRedo (s : RunState) (top : OracleReaderRedo) : OracleReaderRedo :=
  match redo s with
  | Some redoPrev =>
      if (ret s =? REDO_WRONG_SEQUENCE_SWITCHED)
         && (sequence redoPrev =? sequence top)
      then clone top redoPrev else top
  | None => top
  end.

(** The variables when the body compares the sequences. *)
Definition looked (s : RunState) (top : OracleReaderRedo)
    (rest : list OracleReaderRedo) : RunState :=
  {| reader := set_archiveRedoQueue (topRedo s top :: rest) (reader s);
     files := files s; redo := Some (topRedo s top); ret := ret s;
     logsProcessed := logsProcessed s; dispatched := dispatched s |}.

(** The body of the loop, entered with the queue [top :: rest].  [redo]
    points into the queue: the clone changes the top handle in place. *)
Definition archiveBody (s : RunState) (top : OracleReaderRedo)
    (rest : list OracleReaderRedo) : Outcome :=
  let redo := topRedo s top in
  let s := looked s top rest in
  let r := reader s in
  if sequence redo <? databaseSequence r then Continue s
  else if sequence redo >? databaseSequence r then Throw s
  else if shutdown r then Break s
  else
    let '(ret, r, fs) := processLog redo r (files s) in
    let s :=
      {| reader := r; files := fs; redo := Some redo; ret := ret;
         logsProcessed := true; dispatched := dispatched s ++ [redo] |} in
    if negb (ret =? REDO_OK) then Throw s
    else
      let r := set_databaseSequence (u32 (databaseSequence r + 1)) r in
      let '(r, fs) := writeCheckpoint false now r fs in
      let r := set_archiveRedoQueue (pq_pop (archiveRedoQueue r)) r in
      Continue
        {| reader := r; files := fs; redo := None; ret := ret;
           logsProcessed := true; dispatched := dispatched s |}.

(** The loop, for at most [fuel] passes through its body.
    [Left (Continue s)]: the queue was found empty. *)
Fixpoint archiveLoop (fuel : nat) (s : RunState) : LoopResult :=
  match archiveRedoQueue (reader s) with
  | [] => Left (Continue s)
  | top :: rest =>
      match fuel with
      | O => Running s
      | S fuel =>
          match archiveBody s top rest with
          | Continue s => archiveLoop fuel s
          | o => Left o
          end
      end
  end.

End ArchivePhase.

(** ** Bytes *)

(** The values of [uint8_t]. *)
Definition isByte (x : Z) : Prop := 0 <= x < 2 ^ 8.

(** The second test of [readSCN]: the extended form is marked in the top
    bit of byte 5, of byte 0 in the big-endian order. *)
Definition scnExtended (bigEndian : bool) (buf : list Z) : bool :=
  get buf (if bigEndian then 0%nat else 5%nat) .& 0x80 =? 0x80.

(** The short form that a buffer in the extended form has when its value
    is below 2^47: bytes 6 and 7, which hold the bits 32 to 47, take the
    places that these bits have in the six-byte form. *)
Definition scnShortForm (bigEndian : bool) (buf : list Z) : list Z :=
  if bigEndian then <[0%nat := get buf 6]> (<[1%nat := get buf 7]> buf)
  else <[4%nat := get buf 6]> (<[5%nat := get buf 7]> buf).

(** A writer that assigns the first [n] bytes only: the length and the
    bytes from position [n] on stay, and a buffer of bytes stays one. *)
Definition touchesOnly (n : nat) (buf buf' : list Z) : Prop :=
  length buf' = length buf /\
  drop n buf' = drop n buf /\
  (Forall isByte buf -> Forall isByte buf').

(** ** Catalog: what the descriptors satisfy *)

(** Every descriptor is stored under its own object number. *)
Definition keyed (objectMap : gmap Z (option OracleObject)) : Prop :=
  forall k o, descriptor objectMap k = Some o -> objn o = k.

(** The sum of the [numPk] of some columns. *)
Definition sumPk (cols : list OracleColumn) : Z :=
  foldr (fun column total => numPk column + total) 0 cols.

(** ** Checkpoint: the interval *)

(** The members that a parser finds in the text of a checkpoint. *)
Definition checkpointDocument (c : Checkpoint) : gmap string JValue :=
  <["database" := JString (cp_database c)]>
  (<["sequence" := JUint64 (cp_sequence c)]>
  (<["scn" := JUint64 (cp_scn c)]>
  (<["resetlogs" := JUint64 (cp_resetlogs c)]> ∅))).

(** The sequence that [writeCheckpoint] puts into the text. *)
Definition savedSequence (r : OracleReader) : Z :=
  let minSequence := minFirstSequence (transactionHeap r) in
  if minSequence =? 0xFFFFFFFF then databaseSequence r else minSequence.

Section CheckForCheckpoint.

(** The macro of the C library, and the field [checkpointInterval] of the
    reader, which the record above does not carry. *)
Variables CLOCKS_PER_SEC checkpointInterval : Z.

(** [clock()] is read here ([now]) and again in [writeCheckpoint]
    ([later]).  The difference of two [clock_t] is divided as a signed
    number and stored in a [uint64_t]. *)
Definition checkForCheckpoint (now later : Z) (r : OracleReader) (fs : Files)
    : OracleReader * Files :=
  let timeSinceCheckpoint :=
    u64 ((now - previousCheckpoint r) ÷ CLOCKS_PER_SEC) in
  if timeSinceCheckpoint >? checkpointInterval
  then writeCheckpoint false later r fs
  else (r, fs).

End CheckForCheckpoint.

(** A parser that knows the text of one checkpoint. *)
Definition parseOnly (c : Checkpoint) (text : string)
    : option (gmap string JValue) :=
  if String.eqb text (checkpointText c) then Some (checkpointDocument c)
  else None.

(** ** Result sets *)

(** The rows that a result set delivers before it ends or throws. *)
Fixpoint rsRows {A : Type} (rset : ResultSet A) : list A :=
  match rset with
  | rsRow row rest => row :: rsRows rest
  | _ => []
  end.

(** The result set ends without an exception. *)
Fixpoint rsComplete {A : Type} (rset : ResultSet A) : bool :=
  match rset with
  | rsEnd => true
  | rsRow _ rest => rsComplete rest
  | rsThrow => false
  end.

(** ** Online logs *)

(** A row of the [V_$LOGFILE] query of [onlineLogGetList]. *)
Record LogfileRow := {
  lf_group : Z;
  lf_member : string
}.

(** The two causes for which [onlineLogGetList] throws. *)
Inductive RedoLogException :=
  | CantReadMember
  | ErrorGettingList.

(** The loop of [onlineLogGetList].  [fileExists path] is [stat(path) == 0].
    A handle of the set is given by the group and the path it was
    constructed with.  The result is the exception, if one was thrown, and
    the variables [groupLast] and [group] and the set as the loop leaves
    them. *)
Fixpoint onlineLogRows (fileExists : string -> bool)
    (rset : ResultSet LogfileRow) (groupLast group : Z)
    (onlineRedoSet : list (Z * string))
    : option RedoLogException * Z * Z * list (Z * string) :=
  match rset with
  | rsEnd => (None, groupLast, group, onlineRedoSet)
  | rsThrow => (Some ErrorGettingList, groupLast, group, onlineRedoSet)
  | rsRow row rest =>
      let groupPrev := group in
      let group := lf_group row in
      let path := lf_member row in
      if negb (groupPrev =? groupLast) && negb (group =? groupPrev)
      then (Some CantReadMember, groupLast, group, onlineRedoSet)
      else if negb (group =? groupLast) && fileExists path
      then onlineLogRows fileExists rest group group
             (onlineRedoSet ++ [(group, path)])
      else onlineLogRows fileExists rest groupLast group onlineRedoSet
  end.

Definition onlineLogGetList (fileExists : string -> bool)
    (rset : ResultSet LogfileRow) (onlineRedoSet : list (Z * string))
    : option RedoLogException * list (Z * string) :=
  match onlineLogRows fileExists rset (-1) (-1) onlineRedoSet with
  | (Some e, _, _, onlineRedoSet) => (Some e, onlineRedoSet)
  | (None, groupLast, group, onlineRedoSet) =>
      if negb (group =? groupLast) then (Some CantReadMember, onlineRedoSet)
      else (None, onlineRedoSet)
  end.

(** The first search of the online phase of [run], over the set in the
    order of its iteration. *)
Definition findOnline (onlineRedoSet : list OracleReaderRedo)
    (databaseSequence : Z) : option OracleReaderRedo :=
  foldl (fun redo redoTmp =>
           if sequence redoTmp =? databaseSequence then Some redoTmp else redo)
        None onlineRedoSet.

(** The search inside the wait loop, which also looks for a later
    sequence; it starts from the values that [isHigher] and [redo] have. *)
Definition scanOnline (onlineRedoSet : list OracleReaderRedo)
    (databaseSequence : Z) (isHigher : bool) (redo : option OracleReaderRedo)
    : bool * option OracleReaderRedo :=
  foldl (fun '(isHigher, redo) redoTmp =>
           (if sequence redoTmp >? databaseSequence then true else isHigher,
            if sequence redoTmp =? databaseSequence then Some redoTmp else redo))
        (isHigher, redo) onlineRedoSet.

(** The state in which a pass through a loop of [run] ends. *)
Definition stateOf (o : Outcome) : RunState :=
  match o with
  | Continue s => s
  | Break s => s
  | Throw s => s
  end.

Section OnlinePhase.

Variables REDO_OK REDO_WRONG_SEQUENCE_SWITCHED : Z.

(** [redo->processLog()] on an online log, whose handle stays in the set:
    the result code, the handle, the reader and the files as the call
    leaves them. *)
Variable processLogOnline :
  OracleReaderRedo -> OracleReader -> Files ->
  Z * OracleReaderRedo * OracleReader * Files.

Variable now : Z.

(** The end of the body of the online loop of [run], from the test
    [redo == nullptr] on, for a handle [found] that the search returned. *)
Definition onlineDispatch (s : RunState) (found : OracleReaderRedo) : Outcome :=
  let r := reader s in
  if shutdown r then
    Break {| reader := r; files := files s; redo := Some found; ret := ret s;
             logsProcessed := logsProcessed s; dispatched := dispatched s |}
  else
    let '(ret, redo, r, fs) := processLogOnline found r (files s) in
    let s :=
      {| reader := r; files := fs; redo := Some redo; ret := ret;
         logsProcessed := true; dispatched := dispatched s ++ [found] |} in
    if negb (ret =? REDO_OK) then
      if ret =? REDO_WRONG_SEQUENCE_SWITCHED then Break s else Throw s
    else if shutdown r then Break s
    else
      let r := set_databaseSequence (u32 (databaseSequence r + 1)) r in
      let '(r, fs) := writeCheckpoint false now r fs in
      Continue
        {| reader := r; files := fs; redo := Some redo; ret := ret;
           logsProcessed := true; dispatched := dispatched s |}.

End OnlinePhase.

(** The statements of [run] between the two inner loops, when the
    [shutdown] flag is not set: the archive queue is filled. *)
Definition archiveEntry (db : Database) (s : RunState) : RunState :=
  {| reader := archLogGetList db (reader s); files := files s;
     redo := redo s; ret := ret s; logsProcessed := logsProcessed s;
     dispatched := dispatched s |}.

(** The handle that [archLogGetList] constructs for a row. *)
Definition archRedo (row : ArchRow) : OracleReaderRedo :=
  {| group := 0; path := a_name row; sequence := a_sequence row;
     firstScn := a_firstScn row; nextScn := a_nextScn row |}.

(** ** Scenarios

    Concrete data for the examples below. *)

Definition scenarioDatabase : Database := {|
  db_connected := true;
  db_info :=
    rsRow {| LOG_MODE := "ARCHIVELOG"; SUPPLEMENTAL_LOG_MIN := "YES";
             ENDIANNESS := "Little"; CURRENT_SCN := 5000; RESETLOGS_ID := 2;
             VERSION := "Oracle Database 12c Enterprise Edition";
             DB_NAME := "ORCL" |} rsEnd;
  db_conId := rsRow 1 rsEnd;
  db_currentLog := rsRow 60 rsEnd;
  db_tables := fun _ =>
    rsRow {| t_objd := Some 7001; t_objn := 7000; t_clucols := Some 3;
             t_owner := "SCOTT"; t_objectName := "EMP";
             t_dependencies := 0 |}
   (rsRow {| t_objd := None; t_objn := 7010; t_clucols := None;
             t_owner := "SCOTT"; t_objectName := "SALES";
             t_dependencies := 0 |} rsEnd);
  db_columns := fun _ =>
    rsRow {| c_colNo := 1; c_segColNo := 1; c_name := "EMPNO"; c_typeNo := 2;
             c_length := 22; c_precision := Some 4; c_scale := None;
             c_null := 1; c_numPk := 1 |} rsEnd;
  db_archivedLogs := fun _ _ =>
    rsRow {| a_name := "/arch1/o1_100.arc"; a_sequence := 100;
             a_firstScn := 4000; a_nextScn := 4500 |}
   (rsRow {| a_name := "/arch2/o1_100.arc"; a_sequence := 100;
             a_firstScn := 4000; a_nextScn := 4500 |} rsEnd)
|}.

Definition scenarioReader (sequence : Z) (open : list Transaction) : OracleReader := {|
  database := "ORCL"; databaseContext := "ORCL";
  databaseSequence := sequence; databaseScn := 4000;
  resetlogs := 1; conId := 0;
  bigEndian := false; codec := littleCodec;
  transactionHeap :=
    {| heapSize := length open;
       heap := {| firstSequence := 0 |} :: open |};
  archiveRedoQueue := [];
  previousCheckpoint := 0; shutdown := false
|}.

Definition noFiles : Files := {| contents := ∅; unwritable := ∅ |}.

(** A parser that knows one text. *)
Definition scenarioParse (text : string) : option (gmap string JValue) :=
  if String.eqb text "checkpoint of TEST"
  then Some (<["database" := JString "TEST"]>
             (<["sequence" := JUint64 50]>
             (<["resetlogs" := JUint64 1]>
             (<["scn" := JUint64 3000]> ∅))))
  else None.

(** A log reader that reads every log to its end: result code 0. *)
Definition processLogOk (redo : OracleReaderRedo) (r : OracleReader)
    (fs : Files) : Z * OracleReader * Files :=
  (0, r, fs).

(** A clone that leaves the target's own fields. *)
Definition cloneKeep (redo redoPrev : OracleReaderRedo) : OracleReaderRedo :=
  redo.

(** The state of [run] at the archive phase after [archLogGetList], when
    no online log was read. *)
Definition scenarioArchive (sequence : Z) : RunState := {|
  reader := archLogGetList scenarioDatabase (scenarioReader sequence []);
  files := noFiles; redo := None; ret := 0;
  logsProcessed := false; dispatched := []
|}.

(** ** Scenarios of the online phase *)

(** Two groups of two members each; the members in the recovery area are
    listed first. *)
Definition scenarioLogfiles : ResultSet LogfileRow :=
  rsRow {| lf_group := 1; lf_member := "/fra/redo01b.log" |}
 (rsRow {| lf_group := 1; lf_member := "/u01/redo01a.log" |}
 (rsRow {| lf_group := 2; lf_member := "/fra/redo02b.log" |}
 (rsRow {| lf_group := 2; lf_member := "/u01/redo02a.log" |} rsEnd))).

(** Only the files under [/u01] can be read. *)
Definition scenarioExists (path : string) : bool := String.prefix "/u01/" path.

(** A log reader that finds every online log overwritten: result code 4. *)
Definition processLogSwitched (redo : OracleReaderRedo) (r : OracleReader)
    (fs : Files) : Z * OracleReaderRedo * OracleReader * Files :=
  (4, redo, r, fs).

(** A log reader that reads every online log to its end: result code 0. *)
Definition processLogOnlineOk (redo : OracleReaderRedo) (r : OracleReader)
    (fs : Files) : Z * OracleReaderRedo * OracleReader * Files :=
  (0, redo, r, fs).

(** The state of [run] when the online phase has found a handle. *)
Definition scenarioOnline (sequence : Z) : RunState := {|
  reader := scenarioReader sequence [];
  files := noFiles; redo := None; ret := 0;
  logsProcessed := false; dispatched := []
|}.

(** * Properties *)

(** ** Bit operations as arithmetic *)

Lemma land_lo_hi k a x :
  0 <= k -> 0 <= a < 2 ^ k -> x mod 2 ^ k = 0 -> a .& x = 0.
Proof.
  intros Hk Ha Hx. apply Z.bits_inj'. intros n Hn.
  rewrite Z.land_spec, Z.bits_0.
  destruct (Z.lt_ge_cases n k) as [Hlt | Hge].
  - rewrite <- (Z.mod_pow2_bits_low x k n) by lia.
    rewrite Hx, Z.bits_0. apply andb_false_r.
  - rewrite <- (Z.mod_small a (2 ^ k)) by lia.
    rewrite Z.mod_pow2_bits_high by lia. reflexivity.
Qed.

(** Two values that occupy separate bit ranges are or-ed by adding them. *)
Lemma lor_lo_hi k a x :
  0 <= k -> 0 <= a < 2 ^ k -> x mod 2 ^ k = 0 -> a .| x = a + x.
Proof.
  intros Hk Ha Hx. rewrite <- Z.add_lor_land.
  rewrite (land_lo_hi k) by assumption. lia.
Qed.

Lemma lor_hi_lo k a x :
  0 <= k -> 0 <= a < 2 ^ k -> x mod 2 ^ k = 0 -> x .| a = x + a.
Proof. intros. rewrite Z.lor_comm, (lor_lo_hi k) by assumption. lia. Qed.

Lemma land_0xFF x : x .& 0xFF = x mod 2 ^ 8.
Proof. change 0xFF with (Z.ones 8). apply Z.land_ones. lia. Qed.

Lemma land_0x7F x : x .& 0x7F = x mod 2 ^ 7.
Proof. change 0x7F with (Z.ones 7). apply Z.land_ones. lia. Qed.

Lemma land_0x80 x : x .& 0x80 = 2 ^ 7 * ((x / 2 ^ 7) mod 2).
Proof.
  rewrite <- (Z.testbit_spec' x 7) by lia.
  apply Z.bits_inj'. intros n Hn. rewrite Z.land_spec.
  destruct (Z.eq_dec n 7) as [-> | Hne].
  - destruct (Z.testbit x 7); reflexivity.
  - change 0x80 with (2 ^ 7). rewrite Z.pow2_bits_false by lia.
    rewrite andb_false_r. destruct (Z.testbit x 7); simpl Z.b2z.
    + rewrite Z.mul_1_r, Z.pow2_bits_false by lia. reflexivity.
    + rewrite Z.mul_0_r, Z.bits_0. reflexivity.
Qed.

Lemma mod_add_0 x y m : x mod m = 0 -> y mod m = 0 -> (x + y) mod m = 0.
Proof.
  intros Hx Hy. destruct (Z.eq_dec m 0) as [-> | Hm].
  - rewrite Z.mod_0_r in *. lia.
  - rewrite Z.add_mod, Hx, Hy by assumption. apply Z.mod_0_l. assumption.
Qed.

Lemma mod_pow2_mul_0 b j k : 0 <= k <= j -> (b * 2 ^ j) mod 2 ^ k = 0.
Proof.
  intros H. replace j with ((j - k) + k) by lia.
  rewrite Z.pow_add_r, Z.mul_assoc by lia. apply Z.mod_mul. lia.
Qed.

(** ** Tactics for the codec *)

(** Split a buffer of known minimal length into its leading bytes. *)
Tactic Notation "open_buffer" integer(n) ident(buf) ident(Hlen) :=
  do n (destruct buf as [|? buf]; [simpl in Hlen; lia|]);
  clear Hlen.

Ltac run_codec :=
  cbv [read16Little read16Big read32Little read32Big read56Little read56Big
       read64Little read64Big readSCNLittle readSCNBig
       write16Little write16Big write32Little write32Big
       write56Little write56Big write64Little write64Big
       sixFF get put];
  cbn [lookup_total list_lookup_total insert list_insert];
  unfold shl32, shl64, u64, u32, u16, u8.

(** Give a name and its range to every byte [x mod 2^8] of the goal. *)
Ltac name_bytes :=
  repeat match goal with
  | |- context [?x mod 2 ^ 8] =>
      let b := fresh "b" in
      let Hb := fresh "Hb" in
      let E := fresh "E" in
      pose proof (Z.mod_pos_bound x (2 ^ 8) eq_refl) as Hb;
      remember (x mod 2 ^ 8) as b eqn:E
  end.

Ltac mod0 := repeat first [ apply mod_add_0 | apply mod_pow2_mul_0; lia ].
Ltac side := first [ lia | mod0 ].

(** Turn the or of shifted bytes into a sum, innermost first; the first
    rule is the little-endian order, the other two the big-endian one. *)
Ltac lor_to_add :=
  repeat match goal with
  | |- context [?a .| (?b * 2 ^ ?k)] =>
      first [ rewrite (lor_lo_hi k a (b * 2 ^ k)) by side
            | let K := eval compute in (k + 8) in
              rewrite (lor_hi_lo K (b * 2 ^ k) a) by side ]
  | |- context [?x .| ?b] =>
      is_var b; rewrite (lor_hi_lo 8 b x) by side
  end.

Ltac to_arith :=
  rewrite ?land_0xFF, ?land_0x80, ?land_0x7F,
          ?Z.shiftr_div_pow2, ?Z.shiftl_mul_pow2 by lia;
  rewrite ?Z.mod_mod by lia.

Ltac sum_bytes :=
  name_bytes;
  rewrite ?(Z.mod_small (_ * _)) by lia;
  lor_to_add;
  rewrite ?Z.mod_small by lia;
  subst; Z.div_mod_to_equations; lia.

Ltac roundtrip := run_codec; to_arith; sum_bytes.

(** The first condition of [readSCN] fails: some byte is not 0xFF. *)
Ltac not_sixFF :=
  match goal with
  | |- (if ?b then _ else _) = _ =>
      replace b with false
        by (symmetry; apply not_true_is_false;
            let H := fresh "H" in
            intros H;
            repeat (apply andb_prop in H as [H ?]);
            repeat match goal with
                   | E : (_ =? _) = true |- _ => apply Z.eqb_eq in E
                   end;
            try (exfalso; match goal with Hn : ~ _ |- _ => apply Hn end);
            Z.div_mod_to_equations; lia)
  end.

(** ** Plain integers: one width and order at a time *)

Lemma read16Little_write16Little (buf : list Z) (v : Z) :
  0 <= v < 2 ^ 16 -> (2 <= length buf)%nat ->
  read16Little (write16Little buf v) = v.
Proof. intros Hv Hlen. open_buffer 2 buf Hlen. roundtrip. Qed.

Lemma read16Big_write16Big (buf : list Z) (v : Z) :
  0 <= v < 2 ^ 16 -> (2 <= length buf)%nat ->
  read16Big (write16Big buf v) = v.
Proof. intros Hv Hlen. open_buffer 2 buf Hlen. roundtrip. Qed.

Lemma read32Little_write32Little (buf : list Z) (v : Z) :
  0 <= v < 2 ^ 32 -> (4 <= length buf)%nat ->
  read32Little (write32Little buf v) = v.
Proof. intros Hv Hlen. open_buffer 4 buf Hlen. roundtrip. Qed.

Lemma read32Big_write32Big (buf : list Z) (v : Z) :
  0 <= v < 2 ^ 32 -> (4 <= length buf)%nat ->
  read32Big (write32Big buf v) = v.
Proof. intros Hv Hlen. open_buffer 4 buf Hlen. roundtrip. Qed.

Lemma read56Little_write56Little (buf : list Z) (v : Z) :
  0 <= v < 2 ^ 56 -> (7 <= length buf)%nat ->
  read56Little (write56Little buf v) = v.
Proof. intros Hv Hlen. open_buffer 7 buf Hlen. roundtrip. Qed.

Lemma read56Big_write56Big (buf : list Z) (v : Z) :
  0 <= v < 2 ^ 56 -> (7 <= length buf)%nat ->
  read56Big (write56Big buf v) = v.
Proof. intros Hv Hlen. open_buffer 7 buf Hlen. roundtrip. Qed.

Lemma read64Little_write64Little (buf : list Z) (v : Z) :
  0 <= v < 2 ^ 64 -> (8 <= length buf)%nat ->
  read64Little (write64Little buf v) = v.
Proof. intros Hv Hlen. open_buffer 8 buf Hlen. roundtrip. Qed.

Lemma read64Big_write64Big (buf : list Z) (v : Z) :
  0 <= v < 2 ^ 64 -> (8 <= length buf)%nat ->
  read64Big (write64Big buf v) = v.
Proof. intros Hv Hlen. open_buffer 8 buf Hlen. roundtrip. Qed.


(** C8: for each of the two function tables, writing a value of 16, 32, 56
    or 64 bits into a buffer that has room for it and reading it back gives
    the value. *)
Theorem codec_roundtrip (bigEndian : bool) (buf : list Z) (v : Z) :
  let c := codecOf bigEndian in
  (0 <= v < 2 ^ 16 -> (2 <= length buf)%nat -> read16 c (write16 c buf v) = v) /\
  (0 <= v < 2 ^ 32 -> (4 <= length buf)%nat -> read32 c (write32 c buf v) = v) /\
  (0 <= v < 2 ^ 56 -> (7 <= length buf)%nat -> read56 c (write56 c buf v) = v) /\
  (0 <= v < 2 ^ 64 -> (8 <= length buf)%nat -> read64 c (write64 c buf v) = v).
Proof.
  destruct bigEndian; cbn [codecOf read16 read32 read56 read64
    write16 write32 write56 write64 bigCodec littleCodec]; repeat split.
  - apply read16Big_write16Big.
  - apply read32Big_write32Big.
  - apply read56Big_write56Big.
  - apply read64Big_write64Big.
  - apply read16Little_write16Little.
  - apply read32Little_write32Little.
  - apply read56Little_write56Little.
  - apply read64Little_write64Little.
Qed.

Lemma codec_roundtrip_witness :
  let c := codecOf true in
  let buf := [0; 0; 0; 0; 0; 0; 0; 0] in
  read16 c (write16 c buf 0xBEEF) = 0xBEEF /\
  read32 c (write32 c buf 0xBEEF) = 0xBEEF /\
  read56 c (write56 c buf 0xBEEF) = 0xBEEF /\
  read64 c (write64 c buf 0xBEEF) = 0xBEEF.
Proof.
  destruct (codec_roundtrip true [0; 0; 0; 0; 0; 0; 0; 0] 0xBEEF)
    as (H16 & H32 & H56 & H64).
  split; [apply H16; simpl; lia |].
  split; [apply H32; simpl; lia |].
  split; [apply H56 | apply H64]; simpl; lia.
Defined.

(** ** System change numbers *)

Ltac scn_short :=
  run_codec; to_arith;
  not_sixFF;
  match goal with
  | |- (if ?c =? 128 then _ else _) = _ =>
      replace (c =? 128) with false
        by (symmetry; apply Z.eqb_neq; Z.div_mod_to_equations; lia)
  end;
  sum_bytes.

Ltac scn_long v :=
  run_codec;
  rewrite ?land_0xFF, ?Z.shiftr_div_pow2 by lia;
  rewrite (lor_lo_hi 7 _ 0x80) by (try reflexivity; Z.div_mod_to_equations; lia);
  to_arith;
  let c := fresh "c" in
  set (c := (v / 2 ^ 56) mod 2 ^ 8) in *;
  assert (0 <= c < 2 ^ 7) by (subst c; Z.div_mod_to_equations; lia);
  replace ((c + 128) mod 2 ^ 8) with (c + 128) by (rewrite Z.mod_small; lia);
  replace ((c + 128) mod 2 ^ 7) with c by (Z.div_mod_to_equations; lia);
  replace (2 ^ 7 * (((c + 128) / 2 ^ 7) mod 2) =? 128) with true
    by (symmetry; apply Z.eqb_eq; Z.div_mod_to_equations; lia);
  subst c;
  not_sixFF;
  sum_bytes.

Lemma readSCNLittle_writeSCNLittle (buf : list Z) (v : Z) :
  0 <= v < 2 ^ 63 -> ~ scnAllOnes v -> (scnSize v <= length buf)%nat ->
  readSCNLittle (writeSCNLittle buf v) = v.
Proof.
  unfold scnAllOnes, scnSize, writeSCNLittle. intros Hv Hns Hlen.
  destruct (Z.ltb_spec v 0x800000000000) as [Hshort | Hlong].
  - open_buffer 6 buf Hlen. scn_short.
  - open_buffer 8 buf Hlen. scn_long v.
Qed.

Lemma readSCNBig_writeSCNBig (buf : list Z) (v : Z) :
  0 <= v < 2 ^ 63 -> ~ scnAllOnes v -> (scnSize v <= length buf)%nat ->
  readSCNBig (writeSCNBig buf v) = v.
Proof.
  unfold scnAllOnes, scnSize, writeSCNBig. intros Hv Hns Hlen.
  destruct (Z.ltb_spec v 0x800000000000) as [Hshort | Hlong].
  - open_buffer 6 buf Hlen. scn_short.
  - open_buffer 8 buf Hlen. scn_long v.
Qed.

(** A value of the form 0x7FFF????FFFFFFFF is written in the extended form
    with six leading bytes 0xFF, which the readers take for the marker. *)
Lemma readSCN_writeSCN_allOnes (bigEndian : bool) (buf : list Z) (v : Z) :
  let c := codecOf bigEndian in
  0 <= v < 2 ^ 63 -> scnAllOnes v -> (8 <= length buf)%nat ->
  readSCN c (writeSCN c buf v) = ZERO_SCN.
Proof.
  cbv zeta. unfold scnAllOnes. intros Hv [Hlo Hhi] Hlen.
  assert (Hlong : 0x800000000000 <= v) by (Z.div_mod_to_equations; lia).
  apply Z.ltb_ge in Hlong.
  open_buffer 8 buf Hlen.
  destruct bigEndian;
    cbn [codecOf readSCN writeSCN bigCodec littleCodec];
    unfold writeSCNBig, writeSCNLittle; rewrite Hlong;
    run_codec;
    rewrite ?land_0xFF, ?Z.shiftr_div_pow2 by lia;
    rewrite (lor_lo_hi 7 _ 0x80) by (try reflexivity; Z.div_mod_to_equations; lia);
    rewrite ?Z.mod_mod by lia;
    match goal with
    | |- (if ?b then _ else _) = _ =>
        replace b with true; [reflexivity |]
    end;
    symmetry; repeat (apply andb_true_intro; split);
    apply Z.eqb_eq; Z.div_mod_to_equations; lia.
Qed.

(** C1, as the code has it: for each of the two function tables and every
    v in [0, 2^63) that is not of the form 0x7FFF????FFFFFFFF, reading the
    buffer that [writeSCN] produced for v gives v. *)
Theorem readSCN_writeSCN (bigEndian : bool) (buf : list Z) (v : Z) :
  let c := codecOf bigEndian in
  0 <= v < 2 ^ 63 -> ~ scnAllOnes v -> (scnSize v <= length buf)%nat ->
  readSCN c (writeSCN c buf v) = v.
Proof.
  destruct bigEndian; cbn [codecOf readSCN writeSCN bigCodec littleCodec].
  - apply readSCNBig_writeSCNBig.
  - apply readSCNLittle_writeSCNLittle.
Qed.

Lemma readSCN_writeSCN_witness :
  readSCN (codecOf true)
    (writeSCN (codecOf true) [0; 0; 0; 0; 0; 0; 0; 0] 0x123456789ABCDEF0)
  = 0x123456789ABCDEF0.
Proof.
  apply (readSCN_writeSCN true [0; 0; 0; 0; 0; 0; 0; 0] 0x123456789ABCDEF0).
  - lia.
  - unfold scnAllOnes. vm_compute. intros [H _]. discriminate H.
  - vm_compute. lia.
Defined.

(** C1 as it is stated fails: 0x7FFF0000FFFFFFFF lies in [0, 2^63) and is
    not [ZERO_SCN], yet both tables read [ZERO_SCN] from what they wrote. *)
Lemma readSCN_writeSCN_counterexample :
  0 <= 0x7FFF0000FFFFFFFF < 2 ^ 63 /\
  0x7FFF0000FFFFFFFF <> ZERO_SCN /\
  readSCN littleCodec
    (writeSCN littleCodec [0; 0; 0; 0; 0; 0; 0; 0] 0x7FFF0000FFFFFFFF)
    = ZERO_SCN /\
  readSCN bigCodec
    (writeSCN bigCodec [0; 0; 0; 0; 0; 0; 0; 0] 0x7FFF0000FFFFFFFF)
    = ZERO_SCN.
Proof.
  split; [lia |]. split; [discriminate |]. split; reflexivity.
Qed.

(** C7: for each of the two function tables, an 8-byte buffer that starts
    with six bytes 0xFF reads as [ZERO_SCN], whatever the last two bytes. *)
Theorem readSCN_sentinel (bigEndian : bool) (x y : Z) :
  readSCN (codecOf bigEndian) [0xFF; 0xFF; 0xFF; 0xFF; 0xFF; 0xFF; x; y]
  = ZERO_SCN.
Proof. destruct bigEndian; reflexivity. Qed.

(** The form boundary of the spec: 2^47 - 1 takes six bytes with the high
    bit of byte 5 clear, 2^47 takes eight with that bit set. *)
Example writeSCN_boundary :
  writeSCNLittle [0; 0; 0; 0; 0; 0; 0; 0] (2 ^ 47 - 1)
    = [0xFF; 0xFF; 0xFF; 0xFF; 0xFF; 0x7F; 0; 0] /\
  writeSCNLittle [0; 0; 0; 0; 0; 0; 0; 0] (2 ^ 47)
    = [0; 0; 0; 0; 0; 0x80; 0; 0x80].
Proof. split; reflexivity. Qed.

(** ** Catalog *)

Lemma subscript_value (m : gmap Z (option OracleObject)) (k : Z) :
  fst (subscript m k) = descriptor m k.
Proof. unfold subscript, descriptor. destruct (m !! k); reflexivity. Qed.

Lemma subscript_lookup (m : gmap Z (option OracleObject)) (k j : Z) :
  snd (subscript m k) !! j =
  if decide (j = k) then Some (descriptor m k) else m !! j.
Proof.
  unfold subscript, descriptor.
  destruct (m !! k) as [p|] eqn:E; cbn [snd]; case_decide; subst;
    rewrite ?lookup_insert_eq, ?lookup_insert_ne by congruence;
    first [ reflexivity | assumption ].
Qed.

Lemma subscript_descriptor (m : gmap Z (option OracleObject)) (k j : Z) :
  descriptor (snd (subscript m k)) j = descriptor m j.
Proof.
  unfold descriptor at 1. rewrite subscript_lookup.
  case_decide; subst; reflexivity.
Qed.

(** C9, as the code has it: [checkDict] returns the descriptor stored under
    [objn], null when there is none; every entry of the catalog stays as it
    was and the descriptor seen under each object number is the same after
    the call; an entry that the call adds is a null pointer under [objn],
    added when [objn] had no entry.  A lookup of an [objn] without entry
    does add that entry, and nothing else changes: the catalog afterwards
    is the one before with a null pointer under [objn]; a lookup of an
    [objn] with an entry leaves the catalog as it was. *)
Theorem checkDict_frame (objn objd : Z) (m : gmap Z (option OracleObject)) :
  fst (checkDict objn objd m) = descriptor m objn /\
  (forall k p, m !! k = Some p -> snd (checkDict objn objd m) !! k = Some p) /\
  (forall k, descriptor (snd (checkDict objn objd m)) k = descriptor m k) /\
  (forall k p, snd (checkDict objn objd m) !! k = Some p ->
     m !! k = Some p \/ (k = objn /\ p = None /\ m !! objn = None)) /\
  (m !! objn = None -> snd (checkDict objn objd m) = <[objn := None]> m) /\
  (m !! objn = None -> snd (checkDict objn objd m) !! objn = Some None) /\
  (is_Some (m !! objn) -> snd (checkDict objn objd m) = m).
Proof.
  unfold checkDict. split; [apply subscript_value |].
  split; [| split; [apply subscript_descriptor |]].
  - intros k p Hk. rewrite subscript_lookup. case_decide; [subst |]; [| exact Hk].
    unfold descriptor. rewrite Hk. reflexivity.
  - split; [| split; [| split]].
    + intros k p. rewrite subscript_lookup. case_decide; [subst | auto].
      unfold descriptor. destruct (m !! objn) as [q|]; cbn.
      * intros [= <-]. left. reflexivity.
      * intros [= <-]. right. auto.
    + intros Hnone. unfold subscript. rewrite Hnone. reflexivity.
    + intros Hnone. unfold subscript. rewrite Hnone. apply lookup_insert_eq.
    + intros [p Hsome]. unfold subscript. rewrite Hsome. reflexivity.
Qed.

Lemma checkDict_frame_witness :
  let o := newOracleObject 7000 7001 0 0 0 "SCOTT" "EMP" in
  let m : gmap Z (option OracleObject) := {[7000 := Some o]} in
  fst (checkDict 7000 0 m) = Some o /\
  snd (checkDict 5 0 m) !! 7000 = Some (Some o) /\
  snd (checkDict 5 0 m) = <[5 := None]> m /\
  snd (checkDict 7000 0 m) = m.
Proof.
  intros o m. split; [| split; [| split]].
  - etransitivity; [apply (checkDict_frame 7000 0 m) | reflexivity].
  - apply (checkDict_frame 5 0 m). reflexivity.
  - apply (checkDict_frame 5 0 m). reflexivity.
  - apply (checkDict_frame 7000 0 m). exists (Some o). reflexivity.
Defined.

(** C9 as it is stated fails: looking up object number 5 in the empty
    catalog returns no descriptor and leaves a catalog with an entry. *)
Lemma checkDict_counterexample :
  fst (checkDict 5 0 ∅) = None /\
  snd (checkDict 5 0 ∅) !! 5 = Some None /\
  snd (checkDict 5 0 ∅) <> ∅.
Proof.
  unfold checkDict, subscript. rewrite lookup_empty. cbn [fst snd].
  split; [reflexivity |]. split; [apply lookup_insert_eq |].
  apply insert_non_empty.
Qed.

(** The first descriptor under an object number wins. *)
Lemma addToDict_present (object other : OracleObject)
    (m : gmap Z (option OracleObject)) :
  m !! objn object = Some (Some other) -> addToDict object m = m.
Proof. intros H. unfold addToDict, subscript. rewrite H. reflexivity. Qed.

Lemma addToDict_lookup (object : OracleObject)
    (m : gmap Z (option OracleObject)) (k : Z) (o : OracleObject) :
  addToDict object m !! k = Some (Some o) ->
  m !! k = Some (Some o) \/ o = object.
Proof.
  unfold addToDict, subscript.
  destruct (m !! objn object) as [[other|]|] eqn:E.
  - auto.
  - destruct (decide (k = objn object)) as [-> | Hne].
    + rewrite lookup_insert_eq. intros [= <-]. auto.
    + rewrite lookup_insert_ne by congruence. auto.
  - destruct (decide (k = objn object)) as [-> | Hne].
    + rewrite lookup_insert_eq. intros [= <-]. auto.
    + rewrite !lookup_insert_ne by congruence. auto.
Qed.

Lemma readColumns_cluCols (rset : ResultSet ColRow) :
  forall object totalPk totalCols object' totalPk' totalCols',
  readColumns rset object totalPk totalCols = Some (object', totalPk', totalCols') ->
  cluCols object' = cluCols object.
Proof.
  induction rset as [| row rest IH |]; intros object pk cols o' pk' cols'; cbn.
  - intros [= <- _ _]. reflexivity.
  - intros H. apply IH in H. exact H.
  - discriminate.
Qed.

Lemma addTableRows_cluCols (columnsOf : Z -> ResultSet ColRow) (options : Z)
    (rset : ResultSet TabRow) :
  forall tabCnt m k o,
  fst (addTableRows columnsOf options rset tabCnt m) !! k = Some (Some o) ->
  m !! k = Some (Some o) \/ cluCols o = 0.
Proof.
  induction rset as [| row rest IH |]; intros tabCnt m k o; cbn; auto.
  destruct (t_objd row) as [objd|]; [| apply IH].
  destruct (readColumns _ _ 0 0) as [[[object totalPk] totalCols]|] eqn:E;
    cbn; auto.
  intros H. apply IH in H as [H | H]; [| auto].
  apply addToDict_lookup in H as [H | ->]; [auto |].
  right. apply readColumns_cluCols in E. exact E.
Qed.

(** C10: a descriptor found in the catalog after [addTable] was there
    before the call or has [cluCols] 0, whatever CLUCOLS the rows carry. *)
Theorem addTable_cluCols (db : Database) (mask : string) (options : Z)
    (m : gmap Z (option OracleObject)) (k : Z) (o : OracleObject) :
  fst (addTable db mask options m) !! k = Some (Some o) ->
  m !! k = Some (Some o) \/ cluCols o = 0.
Proof. apply addTableRows_cluCols. Qed.

Lemma addTable_cluCols_witness :
  let o :=
    setTotals 1 1
      (addColumn
         {| colNo := 1; segColNo := 1; columnName := "EMPNO"; typeNo := 2;
            columnLength := 22; precision := 4; scale := -1; numPk := 1;
            nullable := false |}
         (newOracleObject 7000 7001 0 0 0 "SCOTT" "EMP")) in
  (∅ : gmap Z (option OracleObject)) !! 7000 = Some (Some o) \/ cluCols o = 0.
Proof.
  apply (addTable_cluCols scenarioDatabase "SCOTT.%" 0 ∅ 7000).
  vm_compute. reflexivity.
Defined.

(** A table whose DATAOBJ# is NULL does not enter the catalog. *)
Example addTable_skips_null_objd :
  fst (addTable scenarioDatabase "SCOTT.%" 0 ∅) !! 7010 = None /\
  snd (addTable scenarioDatabase "SCOTT.%" 0 ∅) = 1.
Proof. split; vm_compute; reflexivity. Qed.

(** ** Checkpoint: the sequence that is saved *)

(** Walking the positions [k .. k+n-1] of an array is folding over that
    slice of it. *)
Lemma foldl_positions (l : list Transaction) (n : nat) :
  forall (k : nat) (m : Z),
  n = 0%nat \/ (k + n <= length l)%nat ->
  foldl (fun m i => keepSmaller m (l !!! i)) m (seq k n)
  = foldl keepSmaller m (take n (drop k l)).
Proof.
  induction n as [| n IH]; intros k m Hn; [reflexivity |].
  destruct Hn as [Hn | Hn]; [discriminate |].
  destruct (lookup_lt_is_Some_2 l k ltac:(lia)) as [x Hx].
  rewrite (drop_S _ _ _ Hx). cbn [seq foldl take].
  rewrite (list_lookup_total_correct _ _ _ Hx).
  apply IH. right. lia.
Qed.

Lemma minFirstSequence_open (h : TransactionHeap) :
  heapValid h ->
  minFirstSequence h = foldl keepSmaller 0xFFFFFFFF (openTransactions h).
Proof.
  intros Hh. unfold minFirstSequence, openTransactions.
  apply (foldl_positions (heap h) (heapSize h) 1 0xFFFFFFFF).
  destruct Hh; [left | right]; lia.
Qed.

(** The fold yields a lower bound that is the start value or is attained. *)
Lemma foldl_keepSmaller (l : list Transaction) :
  forall m0,
  let m := foldl keepSmaller m0 l in
  m <= m0 /\
  (forall t, t ∈ l -> m <= firstSequence t) /\
  (m = m0 \/ exists t, t ∈ l /\ firstSequence t = m).
Proof.
  induction l as [| x l IH]; intros m0; cbn [foldl].
  - split; [lia |]. split; [| auto]. intros t Ht. inversion Ht.
  - destruct (IH (keepSmaller m0 x)) as (Hle & Hall & Hex).
    assert (Hstep : keepSmaller m0 x <= m0 /\ keepSmaller m0 x <= firstSequence x).
    { unfold keepSmaller. destruct (Z.gtb_spec m0 (firstSequence x)); lia. }
    split; [lia |]. split.
    + intros t Ht. apply elem_of_cons in Ht as [-> | Ht]; [lia | auto].
    + destruct Hex as [Heq | (t & Ht & Heq)].
      * assert (Hk : keepSmaller m0 x = m0 \/ keepSmaller m0 x = firstSequence x)
          by (unfold keepSmaller; destruct (m0 >? firstSequence x); auto).
        rewrite Heq. destruct Hk as [Hk | Hk]; [left; exact Hk | right].
        exists x. split; [apply list_elem_of_here | symmetry; exact Hk].
      * right. exists t. split; [apply list_elem_of_further, Ht | exact Heq].
Qed.

Lemma openTransactions_nil (h : TransactionHeap) :
  heapSize h = 0%nat -> openTransactions h = [].
Proof. intros H. unfold openTransactions. rewrite H. reflexivity. Qed.

(** C2, as the code has it: when the checkpoint file can be opened, the
    call leaves in it the record of the reader's database, scn and
    resetlogs whose sequence is [databaseSequence] when no transaction is
    open, and the least [firstSequence] of the open transactions when one
    of them lies below 0xFFFFFFFF. *)
Theorem writeCheckpoint_record (atShutdown : bool) (now : Z)
    (r : OracleReader) (fs : Files) :
  let h := transactionHeap r in
  let outfile := checkpointPath (database r) in
  heapValid h ->
  outfile ∉ unwritable fs ->
  (heapSize h = 0%nat \/
   exists t, t ∈ openTransactions h /\ firstSequence t < 0xFFFFFFFF) ->
  exists minSequence,
    contents (snd (writeCheckpoint atShutdown now r fs)) !! outfile
    = Some (checkpointText
              {| cp_database := database r; cp_sequence := minSequence;
                 cp_scn := databaseScn r; cp_resetlogs := resetlogs r |}) /\
    (heapSize h = 0%nat -> minSequence = databaseSequence r) /\
    (heapSize h <> 0%nat ->
       (exists t, t ∈ openTransactions h /\ firstSequence t = minSequence) /\
       (forall t, t ∈ openTransactions h -> minSequence <= firstSequence t)).
Proof.
  intros h outfile Hvalid Hopen Hmin. unfold writeCheckpoint.
  fold outfile. rewrite bool_decide_eq_false_2 by exact Hopen. cbn [snd contents].
  rewrite lookup_insert_eq. eexists. split; [reflexivity |].
  fold h. rewrite (minFirstSequence_open h Hvalid).
  destruct Hmin as [Hempty | (t & Ht & Hlt)].
  - rewrite (openTransactions_nil h Hempty). cbn.
    split; [reflexivity | contradiction].
  - destruct (foldl_keepSmaller (openTransactions h) 0xFFFFFFFF)
      as (Hle & Hall & Hex).
    set (m := foldl keepSmaller 0xFFFFFFFF (openTransactions h)) in *.
    assert (Hm : m < 0xFFFFFFFF) by (specialize (Hall t Ht); lia).
    destruct (Z.eqb_spec m 0xFFFFFFFF) as [Heq | _]; [lia |].
    split.
    + intros Hempty. rewrite (openTransactions_nil h Hempty) in Ht. inversion Ht.
    + intros _. split; [| exact Hall]. destruct Hex as [Heq | Hex]; [lia | exact Hex].
Qed.

Lemma writeCheckpoint_record_witness :
  exists minSequence,
    contents
      (snd (writeCheckpoint false 10
              (scenarioReader 200
                 [{| firstSequence := 195 |}; {| firstSequence := 198 |}])
              noFiles)) !! "ORCL.json"
    = Some (checkpointText
              {| cp_database := "ORCL"; cp_sequence := minSequence;
                 cp_scn := 4000; cp_resetlogs := 1 |}) /\
    (2%nat = 0%nat -> minSequence = 200) /\
    (2%nat <> 0%nat ->
       (exists t, t ∈ [{| firstSequence := 195 |}; {| firstSequence := 198 |}] /\
                  firstSequence t = minSequence) /\
       (forall t, t ∈ [{| firstSequence := 195 |}; {| firstSequence := 198 |}] ->
                  minSequence <= firstSequence t)).
Proof.
  apply (writeCheckpoint_record false 10
           (scenarioReader 200
              [{| firstSequence := 195 |}; {| firstSequence := 198 |}])
           noFiles).
  - right. simpl. lia.
  - simpl. apply not_elem_of_empty.
  - right. exists {| firstSequence := 195 |}. split.
    + apply list_elem_of_here.
    + simpl. lia.
Defined.

(** The scenario of the spec: the read cursor is at 200 and two
    transactions began at 195 and 198; the file says 195. *)
Example writeCheckpoint_min_sequence :
  contents
    (snd (writeCheckpoint false 10
            (scenarioReader 200
               [{| firstSequence := 195 |}; {| firstSequence := 198 |}])
            noFiles)) !! "ORCL.json"
  = Some (checkpointText
            {| cp_database := "ORCL"; cp_sequence := 195;
               cp_scn := 4000; cp_resetlogs := 1 |}).
Proof. vm_compute. reflexivity. Qed.

(** C2 as it is stated fails, in two ways.  When the file cannot be opened
    the call writes nothing.  When the one open transaction has
    [firstSequence] 0xFFFFFFFF the call writes the reader's sequence 200,
    not that minimum. *)
Lemma writeCheckpoint_counterexample :
  contents
    (snd (writeCheckpoint false 10 (scenarioReader 200 [])
            {| contents := ∅; unwritable := {["ORCL.json"]} |})) !! "ORCL.json"
  = None /\
  contents
    (snd (writeCheckpoint false 10
            (scenarioReader 200 [{| firstSequence := 0xFFFFFFFF |}])
            noFiles)) !! "ORCL.json"
  = Some (checkpointText
            {| cp_database := "ORCL"; cp_sequence := 200;
               cp_scn := 4000; cp_resetlogs := 1 |}) /\
  checkpointText
    {| cp_database := "ORCL"; cp_sequence := 200;
       cp_scn := 4000; cp_resetlogs := 1 |}
  <> checkpointText
       {| cp_database := "ORCL"; cp_sequence := 0xFFFFFFFF;
          cp_scn := 4000; cp_resetlogs := 1 |}.
Proof.
  split; [vm_compute; reflexivity |].
  split; [vm_compute; reflexivity |].
  vm_compute. discriminate.
Qed.

(** ** Checkpoint: loading *)

Lemma readCheckpoint_keeps (Parse : string -> option (gmap string JValue))
    (r : OracleReader) (fs : Files) :
  checkpointUnusable Parse r fs ->
  readCheckpoint Parse r fs = Some r.
Proof.
  unfold checkpointUnusable, readCheckpoint.
  destruct (contents fs !! checkpointPath (database r)) as [configJSON|];
    [| reflexivity].
  destruct (String.length configJSON =? 0)%nat; [reflexivity |].
  destruct (Parse configJSON) as [document|]; [| reflexivity].
  intros (name & Hname & Hne). unfold getJSONfield. rewrite Hname. cbn.
  destruct (String.eqb_spec (database r) name) as [Heq | _]; [| reflexivity].
  congruence.
Qed.

(** C6: when the checkpoint file is absent, or does not parse, or names
    another database, [readCheckpoint] returns and the reader is as before:
    sequence, scn and resetlogs keep their values. *)
Theorem readCheckpoint_unusable (Parse : string -> option (gmap string JValue))
    (r : OracleReader) (fs : Files) :
  checkpointUnusable Parse r fs ->
  exists r',
    readCheckpoint Parse r fs = Some r' /\
    databaseSequence r' = databaseSequence r /\
    databaseScn r' = databaseScn r /\
    resetlogs r' = resetlogs r.
Proof.
  intros H. exists r. rewrite (readCheckpoint_keeps Parse r fs H). auto.
Qed.

Lemma readCheckpoint_unusable_witness :
  exists r',
    readCheckpoint scenarioParse (scenarioReader 7 [])
      {| contents := {["ORCL.json" := "checkpoint of TEST"]}; unwritable := ∅ |}
    = Some r' /\
    databaseSequence r' = 7 /\ databaseScn r' = 4000 /\ resetlogs r' = 1.
Proof.
  apply (readCheckpoint_unusable scenarioParse (scenarioReader 7 [])).
  vm_compute. exists "TEST". split; [reflexivity | discriminate].
Defined.

(** On a cold start the three values are 0. *)
Lemma newOracleReader_cold_start (Parse : string -> option (gmap string JValue))
    (name : string) (now : Z) (fs : Files) :
  contents fs !! checkpointPath name = None ->
  exists r, newOracleReader Parse name now fs = Some r /\
            databaseSequence r = 0 /\ databaseScn r = 0 /\ resetlogs r = 0.
Proof.
  intros Habsent. eexists. split.
  - apply readCheckpoint_keeps. unfold checkpointUnusable. cbn [database].
    rewrite Habsent. exact I.
  - cbn. auto.
Qed.

(** A checkpoint of the same database is taken over. *)
Example readCheckpoint_loads :
  (fun r => (databaseSequence r, databaseScn r, resetlogs r)) <$>
  readCheckpoint scenarioParse
    {| database := "TEST"; databaseContext := "TEST";
       databaseSequence := 0; databaseScn := 0; resetlogs := 0; conId := 0;
       bigEndian := false; codec := littleCodec;
       transactionHeap := {| heapSize := 0; heap := [] |};
       archiveRedoQueue := []; previousCheckpoint := 0; shutdown := false |}
    {| contents := {["TEST.json" := "checkpoint of TEST"]}; unwritable := ∅ |}
  = Some (50, 3000, 1).
Proof. vm_compute. reflexivity. Qed.

(** ** Bootstrap: the incarnation check *)

(** What the [try] block does to [resetlogs], given the row of the
    database. *)
Lemma queryDatabase_resetlogs (db : Database) (r : OracleReader)
    (row : DatabaseRow) (rest : ResultSet DatabaseRow) :
  db_info db = rsRow row rest ->
  (resetlogs r <> 0 /\ RESETLOGS_ID row <> resetlogs r ->
     fst (queryDatabase db r) = None /\
     resetlogs (snd (queryDatabase db r)) = resetlogs r) /\
  (resetlogs r = 0 \/ RESETLOGS_ID row = resetlogs r ->
     LOG_MODE row = "ARCHIVELOG" ->
     SUPPLEMENTAL_LOG_MIN row = "YES" ->
     resetlogs (snd (queryDatabase db r)) = RESETLOGS_ID row).
Proof.
  intros Hinfo. unfold queryDatabase. rewrite Hinfo.
  set (r1 := if String.eqb (ENDIANNESS row) "Big" then set_bigEndian r else r).
  assert (Hr1 : resetlogs r1 = resetlogs r)
    by (subst r1; destruct (String.eqb _ _); reflexivity).
  rewrite Hr1. split.
  - intros [Hnz Hne].
    destruct (String.eqb (LOG_MODE row) "ARCHIVELOG"); cbn; [| auto].
    destruct (String.eqb (SUPPLEMENTAL_LOG_MIN row) "YES"); cbn; [| auto].
    destruct (Z.eqb_spec (resetlogs r) 0); [contradiction |].
    destruct (Z.eqb_spec (RESETLOGS_ID row) (resetlogs r)); [contradiction |].
    cbn. auto.
  - intros Hadopt -> ->. cbn.
    assert (Hpass : negb (resetlogs r =? 0)
                    && negb (RESETLOGS_ID row =? resetlogs r) = false).
    { destruct (Z.eqb_spec (resetlogs r) 0); [reflexivity |].
      destruct (Z.eqb_spec (RESETLOGS_ID row) (resetlogs r)); [reflexivity |].
      destruct Hadopt; contradiction. }
    rewrite Hpass.
    destruct (index 0 _ (VERSION row)); [| destruct (db_conId db)]; reflexivity.
Qed.

(** What [initialize] adds around the [try] block. *)
Lemma initialize_queryDatabase (db : Database) (r : OracleReader) :
  db_connected db = true ->
  resetlogs (snd (initialize db r)) = resetlogs (snd (queryDatabase db r)) /\
  (fst (queryDatabase db r) = None -> fst (initialize db r) = 0).
Proof.
  intros Hconn. unfold initialize. rewrite Hconn. cbn [negb].
  destruct (queryDatabase db r) as [[scn|] r']; cbn [fst snd].
  - split; [| discriminate].
    destruct ((databaseSequence r' =? 0) || (databaseScn r' =? 0));
      [destruct (db_currentLog db) |]; cbn;
      repeat match goal with
             | |- context [if ?b then _ else _] => destruct b
             end; reflexivity.
  - split; reflexivity.
Qed.

(** C5: given the row of the database, a stored resetlogs that is neither
    0 nor the RESETLOGS_ID of the row makes [initialize] return 0 and keep
    the stored value.  Otherwise, once [initialize] has its connection and
    the row passed the checks of ARCHIVELOG mode and supplemental logging
    that come first, the reader's resetlogs becomes the RESETLOGS_ID of
    the row. *)
Theorem initialize_resetlogs (db : Database) (r : OracleReader)
    (row : DatabaseRow) (rest : ResultSet DatabaseRow) :
  db_info db = rsRow row rest ->
  (resetlogs r <> 0 /\ RESETLOGS_ID row <> resetlogs r ->
     fst (initialize db r) = 0 /\
     resetlogs (snd (initialize db r)) = resetlogs r) /\
  (resetlogs r = 0 \/ RESETLOGS_ID row = resetlogs r ->
     db_connected db = true ->
     LOG_MODE row = "ARCHIVELOG" ->
     SUPPLEMENTAL_LOG_MIN row = "YES" ->
     resetlogs (snd (initialize db r)) = RESETLOGS_ID row).
Proof.
  intros Hinfo.
  destruct (queryDatabase_resetlogs db r row rest Hinfo) as [Habort Hadopt].
  split.
  - intros Hmis. destruct (db_connected db) eqn:Hconn.
    + destruct (initialize_queryDatabase db r Hconn) as [Hres Hret].
      destruct (Habort Hmis) as [Hnone Hkeep].
      split; [apply Hret, Hnone | congruence].
    + unfold initialize. rewrite Hconn. split; reflexivity.
  - intros Hok Hconn Hmode Hsup.
    destruct (initialize_queryDatabase db r Hconn) as [Hres _].
    rewrite Hres. apply Hadopt; assumption.
Qed.

(** The incarnation scenario of the spec (stored 1, live 2), and a reader
    without a stored value. *)
Lemma initialize_resetlogs_witness :
  (fst (initialize scenarioDatabase (scenarioReader 200 [])) = 0 /\
   resetlogs (snd (initialize scenarioDatabase (scenarioReader 200 []))) = 1) /\
  resetlogs
    (snd (initialize scenarioDatabase (set_resetlogs 0 (scenarioReader 200 []))))
  = 2.
Proof.
  split.
  - apply (initialize_resetlogs scenarioDatabase (scenarioReader 200 []) _ _ eq_refl).
    simpl. lia.
  - apply (initialize_resetlogs scenarioDatabase
             (set_resetlogs 0 (scenarioReader 200 [])) _ _ eq_refl).
    + left. reflexivity.
    + reflexivity.
    + reflexivity.
    + reflexivity.
Defined.

(** Without a checkpoint the reader takes the incarnation, the sequence and
    the scn of the database. *)
Example initialize_cold_start :
  (fun x => (fst x, resetlogs (snd x), databaseSequence (snd x),
             databaseScn (snd x), conId (snd x)))
    (initialize scenarioDatabase
       (set_resetlogs 0 (set_databaseScn 0 (scenarioReader 0 []))))
  = (1, 2, 60, 5000, 1).
Proof. vm_compute. reflexivity. Qed.

(** ** Archive queue *)

Lemma pq_push_elem (x y : OracleReaderRedo) (q : list OracleReaderRedo) :
  y ∈ pq_push x q <-> y = x \/ y ∈ q.
Proof.
  induction q as [| z q IH]; cbn.
  - rewrite list_elem_of_singleton, elem_of_nil. tauto.
  - destruct (sequence x <? sequence z).
    + apply elem_of_cons.
    + rewrite !elem_of_cons, IH. tauto.
Qed.

Lemma pq_push_sorted (x : OracleReaderRedo) (q : list OracleReaderRedo) :
  StronglySorted seq_le q -> StronglySorted seq_le (pq_push x q).
Proof.
  induction 1 as [| z q Hq IH Hz]; cbn.
  - repeat constructor.
  - destruct (Z.ltb_spec (sequence x) (sequence z)) as [Hlt | Hge].
    + constructor; [constructor; assumption |].
      constructor; [unfold seq_le; lia |].
      eapply Forall_impl; [exact Hz |]. unfold seq_le. intros; lia.
    + constructor; [exact IH |].
      apply Forall_forall. intros y Hy. apply pq_push_elem in Hy as [-> | Hy].
      * unfold seq_le. lia.
      * rewrite Forall_forall in Hz. apply Hz, Hy.
Qed.

Lemma pq_pop_sorted (q : list OracleReaderRedo) :
  StronglySorted seq_le q -> StronglySorted seq_le (pq_pop q).
Proof. destruct 1; [constructor | assumption]. Qed.

(** The handle on top is a smallest one. *)
Lemma pq_top_least (q : list OracleReaderRedo) (top x : OracleReaderRedo) :
  StronglySorted seq_le q -> pq_top q = Some top -> x ∈ q ->
  sequence top <= sequence x.
Proof.
  destruct 1 as [| z q Hq Hz]; [discriminate |]. cbn. intros [= <-] Hx.
  apply elem_of_cons in Hx as [-> | Hx]; [lia |].
  rewrite Forall_forall in Hz. apply Hz, Hx.
Qed.

Lemma pushArchRows_sorted (rset : ResultSet ArchRow) :
  forall q, StronglySorted seq_le q -> StronglySorted seq_le (pushArchRows rset q).
Proof.
  induction rset as [| row rest IH |]; intros q Hq; cbn; auto.
  apply IH, pq_push_sorted, Hq.
Qed.

(** ** Scheduler: the archive phase *)

Section ArchiveProperties.

Variables REDO_OK REDO_WRONG_SEQUENCE_SWITCHED : Z.
Variable processLog :
  OracleReaderRedo -> OracleReader -> Files -> Z * OracleReader * Files.
Variable clone : OracleReaderRedo -> OracleReaderRedo -> OracleReaderRedo.
Variable now : Z.

(** A clone between handles of one sequence keeps that sequence. *)
Hypothesis clone_sequence :
  forall redo redoPrev,
  sequence redoPrev = sequence redo ->
  sequence (clone redo redoPrev) = sequence redo.

#[local] Abbreviation topRedo' := (topRedo REDO_WRONG_SEQUENCE_SWITCHED clone).
#[local] Abbreviation looked' := (looked REDO_WRONG_SEQUENCE_SWITCHED clone).
#[local] Abbreviation archiveBody' :=
  (archiveBody REDO_OK REDO_WRONG_SEQUENCE_SWITCHED processLog clone now).
#[local] Abbreviation archiveLoop' :=
  (archiveLoop REDO_OK REDO_WRONG_SEQUENCE_SWITCHED processLog clone now).

Lemma topRedo_sequence (s : RunState) (top : OracleReaderRedo) :
  sequence (topRedo' s top) = sequence top.
Proof.
  unfold topRedo. destruct (redo s) as [redoPrev|]; [| reflexivity].
  destruct (ret s =? _); [| reflexivity]. cbn.
  destruct (Z.eqb_spec (sequence redoPrev) (sequence top)); [| reflexivity].
  apply clone_sequence. assumption.
Qed.

Lemma archiveBody_stale (s : RunState) (top : OracleReaderRedo)
    (rest : list OracleReaderRedo) :
  sequence top < databaseSequence (reader s) ->
  archiveBody' s top rest = Continue (looked' s top rest).
Proof.
  intros Hlt. unfold archiveBody. cbn. rewrite topRedo_sequence.
  destruct (Z.ltb_spec (sequence top) (databaseSequence (reader s)));
    [reflexivity | lia].
Qed.

Lemma archiveBody_gap (s : RunState) (top : OracleReaderRedo)
    (rest : list OracleReaderRedo) :
  sequence top > databaseSequence (reader s) ->
  archiveBody' s top rest = Throw (looked' s top rest).
Proof.
  intros Hgt. unfold archiveBody. cbn. rewrite topRedo_sequence.
  destruct (Z.ltb_spec (sequence top) (databaseSequence (reader s))); [lia |].
  destruct (Z.gtb_spec (sequence top) (databaseSequence (reader s)));
    [reflexivity | lia].
Qed.

(** A handle on top whose sequence is below the expected one is never
    popped: however many passes the loop makes, it is still running, with
    a handle of that sequence on top and nothing else changed. *)
Lemma archiveLoop_stale (fuel : nat) :
  forall (s : RunState) (top : OracleReaderRedo) (rest : list OracleReaderRedo),
  archiveRedoQueue (reader s) = top :: rest ->
  sequence top < databaseSequence (reader s) ->
  exists s' top',
    archiveLoop' fuel s = Running s' /\
    archiveRedoQueue (reader s') = top' :: rest /\
    sequence top' = sequence top /\
    databaseSequence (reader s') = databaseSequence (reader s) /\
    dispatched s' = dispatched s /\
    files s' = files s.
Proof.
  induction fuel as [| fuel IH]; intros s top rest Hq Hlt; cbn; rewrite Hq.
  - exists s, top. repeat split; auto.
  - rewrite archiveBody_stale by exact Hlt.
    destruct (IH (looked' s top rest) (topRedo' s top) rest) as (s' & top' & H).
    + reflexivity.
    + rewrite topRedo_sequence. exact Hlt.
    + exists s', top'. rewrite topRedo_sequence in H. exact H.
Qed.

(** C4: when the handle on top of the archive queue has a sequence above
    the expected one, the pass through the loop ends in the throw; no
    handle was given to [processLog] and the expected sequence is the
    same. *)
Theorem archiveLoop_gap (fuel : nat) (s : RunState) (top : OracleReaderRedo) :
  pq_top (archiveRedoQueue (reader s)) = Some top ->
  sequence top > databaseSequence (reader s) ->
  exists s',
    archiveLoop' (S fuel) s = Left (Throw s') /\
    dispatched s' = dispatched s /\
    databaseSequence (reader s') = databaseSequence (reader s).
Proof.
  intros Htop Hgt. destruct (archiveRedoQueue (reader s)) as [| x rest] eqn:Hq;
    [discriminate |].
  cbn in Htop. injection Htop as ->. cbn. rewrite Hq.
  rewrite archiveBody_gap by exact Hgt.
  exists (looked' s top rest). repeat split; reflexivity.
Qed.

End ArchiveProperties.

(** The gap scenario of the spec: the reader expects sequence 50 and the
    archive begins at 100. *)
Lemma archiveLoop_gap_witness :
  exists s',
    archiveLoop 0 4 processLogOk cloneKeep 10 1 (scenarioArchive 50)
      = Left (Throw s') /\
    dispatched s' = [] /\
    databaseSequence (reader s') = 50.
Proof.
  apply (archiveLoop_gap 0 4 processLogOk cloneKeep 10
           (fun redo redoPrev _ => eq_refl) 0 (scenarioArchive 50)
           {| group := 0; path := "/arch1/o1_100.arc"; sequence := 100;
              firstScn := 4000; nextScn := 4500 |}).
  - reflexivity.
  - simpl. lia.
Defined.

(** C3 on the code: the database lists sequence 100 at two destinations and
    the reader expects 100.  The first pass reads one copy and moves on to
    101.  The second copy, now below the expected sequence, is then on top
    at every later pass: it is not popped, and the loop is still running
    after any number of passes. *)
Theorem archiveLoop_stale_handle_stays (fuel : nat) :
  exists s top,
    archiveLoop 0 4 processLogOk cloneKeep 10 (S fuel) (scenarioArchive 100)
      = Running s /\
    archiveRedoQueue (reader s) = [top] /\
    sequence top = 100 /\
    databaseSequence (reader s) = 101 /\
    dispatched s =
      [{| group := 0; path := "/arch1/o1_100.arc"; sequence := 100;
          firstScn := 4000; nextScn := 4500 |}].
Proof.
  set (a1 := {| group := 0; path := "/arch1/o1_100.arc"; sequence := 100;
                firstScn := 4000; nextScn := 4500 |}).
  set (a2 := {| group := 0; path := "/arch2/o1_100.arc"; sequence := 100;
                firstScn := 4000; nextScn := 4500 |}).
  set (r1 := set_databaseSequence 101
               (set_archiveRedoQueue [a1; a2] (scenarioReader 100 []))).
  set (s1 := {| reader := set_archiveRedoQueue [a2]
                            (fst (writeCheckpoint false 10 r1 noFiles));
                files := snd (writeCheckpoint false 10 r1 noFiles);
                redo := None; ret := 0; logsProcessed := true;
                dispatched := [a1] |}).
  assert (Hpass : archiveLoop 0 4 processLogOk cloneKeep 10 (S fuel)
                    (scenarioArchive 100)
                  = archiveLoop 0 4 processLogOk cloneKeep 10 fuel s1)
    by (destruct fuel; reflexivity).
  rewrite Hpass.
  destruct (archiveLoop_stale 0 4 processLogOk cloneKeep 10
              (fun redo redoPrev _ => eq_refl) fuel s1 a2 [])
    as (s & top & Hrun & Hq & Hseq & Hdb & Hdisp & _).
  - reflexivity.
  - vm_compute. reflexivity.
  - exists s, top. rewrite Hrun, Hq, Hseq, Hdb, Hdisp. repeat split.
Qed.

(** Two archived logs in sequence are read one after the other; the loop
    ends on the empty queue, and the checkpoint names the next sequence. *)
Example archiveLoop_in_sequence :
  match
    archiveLoop 0 4 processLogOk cloneKeep 10 2
      {| reader :=
           set_archiveRedoQueue
             [{| group := 0; path := "/arch1/o1_100.arc"; sequence := 100;
                 firstScn := 4000; nextScn := 4500 |};
              {| group := 0; path := "/arch1/o1_101.arc"; sequence := 101;
                 firstScn := 4500; nextScn := 4900 |}]
             (scenarioReader 100 []);
         files := noFiles; redo := None; ret := 0;
         logsProcessed := false; dispatched := [] |}
  with
  | Left (Continue s) =>
      Some (databaseSequence (reader s), archiveRedoQueue (reader s),
            sequence <$> dispatched s,
            contents (files s) !! "ORCL.json")
  | _ => None
  end
  = Some (102, [], [100; 101],
          Some (checkpointText
                  {| cp_database := "ORCL"; cp_sequence := 102;
                     cp_scn := 4000; cp_resetlogs := 1 |})).
Proof. vm_compute. reflexivity. Qed.

(** * Further properties *)

(** ** Codec: buffers of bytes *)

(** Split a buffer of bytes into its leading bytes and their ranges. *)
Tactic Notation "open_bytes" integer(n) ident(buf) ident(Hlen) ident(Hbytes) :=
  do n (destruct buf as [|? buf]; [simpl in Hlen; lia|];
        apply Forall_cons in Hbytes as [? Hbytes]);
  clear Hlen; unfold isByte in *.

(** Give a name and its range to the seven low bits [x mod 2^7]. *)
Ltac name_low7 :=
  repeat match goal with
  | |- context [?x mod 2 ^ 7] =>
      let c := fresh "c" in
      let Hc := fresh "Hc" in
      let E := fresh "E" in
      pose proof (Z.mod_pos_bound x (2 ^ 7) eq_refl) as Hc;
      remember (x mod 2 ^ 7) as c eqn:E
  end.

(** The value read, as the sum of its bytes. *)
Ltac read_as_sum :=
  rewrite ?land_0x7F, ?Z.shiftl_mul_pow2 by lia;
  name_low7;
  rewrite ?(Z.mod_small (_ * _)) by lia;
  lor_to_add;
  rewrite ?Z.mod_small by lia.

Ltac same_bytes := repeat f_equal; subst; Z.div_mod_to_equations; lia.

Ltac write_read := run_codec; read_as_sum; to_arith; same_bytes.

Lemma write16Little_read16Little (buf : list Z) :
  Forall isByte buf -> (2 <= length buf)%nat ->
  write16Little buf (read16Little buf) = buf.
Proof. intros Hb Hlen. open_bytes 2 buf Hlen Hb. write_read. Qed.

Lemma write16Big_read16Big (buf : list Z) :
  Forall isByte buf -> (2 <= length buf)%nat ->
  write16Big buf (read16Big buf) = buf.
Proof. intros Hb Hlen. open_bytes 2 buf Hlen Hb. write_read. Qed.

Lemma write32Little_read32Little (buf : list Z) :
  Forall isByte buf -> (4 <= length buf)%nat ->
  write32Little buf (read32Little buf) = buf.
Proof. intros Hb Hlen. open_bytes 4 buf Hlen Hb. write_read. Qed.

Lemma write32Big_read32Big (buf : list Z) :
  Forall isByte buf -> (4 <= length buf)%nat ->
  write32Big buf (read32Big buf) = buf.
Proof. intros Hb Hlen. open_bytes 4 buf Hlen Hb. write_read. Qed.

Lemma write56Little_read56Little (buf : list Z) :
  Forall isByte buf -> (7 <= length buf)%nat ->
  write56Little buf (read56Little buf) = buf.
Proof. intros Hb Hlen. open_bytes 7 buf Hlen Hb. write_read. Qed.

Lemma write56Big_read56Big (buf : list Z) :
  Forall isByte buf -> (7 <= length buf)%nat ->
  write56Big buf (read56Big buf) = buf.
Proof. intros Hb Hlen. open_bytes 7 buf Hlen Hb. write_read. Qed.

Lemma write64Little_read64Little (buf : list Z) :
  Forall isByte buf -> (8 <= length buf)%nat ->
  write64Little buf (read64Little buf) = buf.
Proof. intros Hb Hlen. open_bytes 8 buf Hlen Hb. write_read. Qed.

Lemma write64Big_read64Big (buf : list Z) :
  Forall isByte buf -> (8 <= length buf)%nat ->
  write64Big buf (read64Big buf) = buf.
Proof. intros Hb Hlen. open_bytes 8 buf Hlen Hb. write_read. Qed.

(** X1: for each of the two function tables, reading a value of 16, 32, 56 or
    64 bits from a buffer of bytes and writing it back to the same place
    leaves the buffer as it was. *)
Theorem codec_write_read (bigEndian : bool) (buf : list Z) :
  let c := codecOf bigEndian in
  Forall isByte buf ->
  ((2 <= length buf)%nat -> write16 c buf (read16 c buf) = buf) /\
  ((4 <= length buf)%nat -> write32 c buf (read32 c buf) = buf) /\
  ((7 <= length buf)%nat -> write56 c buf (read56 c buf) = buf) /\
  ((8 <= length buf)%nat -> write64 c buf (read64 c buf) = buf).
Proof.
  intros c Hb. subst c.
  destruct bigEndian; cbn [codecOf read16 read32 read56 read64
    write16 write32 write56 write64 bigCodec littleCodec]; repeat split.
  - apply write16Big_read16Big, Hb.
  - apply write32Big_read32Big, Hb.
  - apply write56Big_read56Big, Hb.
  - apply write64Big_read64Big, Hb.
  - apply write16Little_read16Little, Hb.
  - apply write32Little_read32Little, Hb.
  - apply write56Little_read56Little, Hb.
  - apply write64Little_read64Little, Hb.
Qed.

Lemma isByte_list_8 : Forall isByte [0x12; 0x34; 0x56; 0x78; 0x9A; 0xBC; 0xDE; 0xF0].
Proof. repeat constructor; unfold isByte; lia. Qed.

Lemma codec_write_read_witness :
  let c := codecOf false in
  let buf := [0x12; 0x34; 0x56; 0x78; 0x9A; 0xBC; 0xDE; 0xF0] in
  write16 c buf (read16 c buf) = buf /\
  write32 c buf (read32 c buf) = buf /\
  write56 c buf (read56 c buf) = buf /\
  write64 c buf (read64 c buf) = buf.
Proof.
  destruct (codec_write_read false
              [0x12; 0x34; 0x56; 0x78; 0x9A; 0xBC; 0xDE; 0xF0] isByte_list_8)
    as (H16 & H32 & H56 & H64).
  split; [apply H16; simpl; lia |].
  split; [apply H32; simpl; lia |].
  split; [apply H56 | apply H64]; simpl; lia.
Defined.

Lemma writeSCNLittle_readSCNLittle (buf : list Z) :
  Forall isByte buf ->
  ((if scnExtended false buf then 8 else 6) <= length buf)%nat ->
  sixFF buf = false ->
  writeSCNLittle buf (readSCNLittle buf)
  = if scnExtended false buf && (readSCNLittle buf <? 0x800000000000)
    then scnShortForm false buf else buf.
Proof.
  intros Hb Hlen Hsix. unfold readSCNLittle in *. rewrite Hsix in *.
  unfold scnExtended, scnShortForm in *.
  destruct (get buf 5 .& 128 =? 128) eqn:Hflag; cbn [andb].
  - unfold writeSCNLittle.
    open_bytes 8 buf Hlen Hb.
    unfold get in Hflag. cbn in Hflag. rewrite land_0x80 in Hflag.
    apply Z.eqb_eq in Hflag.
    run_codec. read_as_sum.
    match goal with
    | |- context [?v <? ?k] => destruct (Z.ltb_spec v k) as [Hlt | Hge]
    end.
    + to_arith. same_bytes.
    + rewrite ?land_0xFF, ?Z.shiftr_div_pow2 by lia.
      rewrite (lor_lo_hi 7 _ 0x80) by (try reflexivity; Z.div_mod_to_equations; lia).
      rewrite ?Z.mod_mod by lia.
      same_bytes.
  - unfold writeSCNLittle.
    open_bytes 6 buf Hlen Hb.
    unfold get in Hflag. cbn in Hflag. rewrite land_0x80 in Hflag.
    apply Z.eqb_neq in Hflag.
    run_codec. read_as_sum.
    match goal with
    | |- (if ?v <? ?k then _ else _) = _ =>
        replace (v <? k) with true
          by (symmetry; apply Z.ltb_lt; Z.div_mod_to_equations; lia)
    end.
    to_arith. same_bytes.
Qed.
(** The buffer in the short form is read as one: its byte [b] of the bits
    40 to 47 is below 2^7. *)
Ltac short_again b :=
  assert (b < 2 ^ 7) by lia;
  replace (b =? 255) with false by (symmetry; apply Z.eqb_neq; lia);
  rewrite ?andb_false_r; cbn [andb]; rewrite land_0x80;
  match goal with
  | |- context [?x =? 128] =>
      replace (x =? 128) with false
        by (symmetry; apply Z.eqb_neq; Z.div_mod_to_equations; lia)
  end;
  lia.

Lemma readSCNLittle_scnShortForm (buf : list Z) :
  Forall isByte buf -> (8 <= length buf)%nat ->
  sixFF buf = false -> scnExtended false buf = true ->
  readSCNLittle buf < 0x800000000000 ->
  readSCNLittle (scnShortForm false buf) = readSCNLittle buf.
Proof.
  intros Hb Hlen Hsix Hflag. unfold readSCNLittle at 1 3. rewrite Hsix.
  unfold scnExtended in Hflag. rewrite Hflag. clear Hsix.
  open_bytes 8 buf Hlen Hb.
  unfold get in Hflag. cbn in Hflag. rewrite land_0x80 in Hflag.
  apply Z.eqb_eq in Hflag.
  unfold scnShortForm.
  run_codec. read_as_sum. intros Hlt.
  match goal with
  | |- context [?b .& 128 =? 128] => short_again b
  end.
Qed.

Lemma writeSCNBig_readSCNBig (buf : list Z) :
  Forall isByte buf ->
  ((if scnExtended true buf then 8 else 6) <= length buf)%nat ->
  sixFF buf = false ->
  writeSCNBig buf (readSCNBig buf)
  = if scnExtended true buf && (readSCNBig buf <? 0x800000000000)
    then scnShortForm true buf else buf.
Proof.
  intros Hb Hlen Hsix. unfold readSCNBig in *. rewrite Hsix in *.
  unfold scnExtended, scnShortForm in *.
  destruct (get buf 0 .& 128 =? 128) eqn:Hflag; cbn [andb].
  - unfold writeSCNBig.
    open_bytes 8 buf Hlen Hb.
    unfold get in Hflag. cbn in Hflag. rewrite land_0x80 in Hflag.
    apply Z.eqb_eq in Hflag.
    run_codec. read_as_sum.
    match goal with
    | |- context [?v <? ?k] => destruct (Z.ltb_spec v k) as [Hlt | Hge]
    end.
    + to_arith. same_bytes.
    + rewrite ?land_0xFF, ?Z.shiftr_div_pow2 by lia.
      rewrite (lor_lo_hi 7 _ 0x80)
        by (try reflexivity; subst; Z.div_mod_to_equations; lia).
      rewrite ?Z.mod_mod by lia.
      same_bytes.
  - unfold writeSCNBig.
    open_bytes 6 buf Hlen Hb.
    unfold get in Hflag. cbn in Hflag. rewrite land_0x80 in Hflag.
    apply Z.eqb_neq in Hflag.
    run_codec. read_as_sum.
    match goal with
    | |- (if ?v <? ?k then _ else _) = _ =>
        replace (v <? k) with true
          by (symmetry; apply Z.ltb_lt; Z.div_mod_to_equations; lia)
    end.
    to_arith. same_bytes.
Qed.

Lemma readSCNBig_scnShortForm (buf : list Z) :
  Forall isByte buf -> (8 <= length buf)%nat ->
  sixFF buf = false -> scnExtended true buf = true ->
  readSCNBig buf < 0x800000000000 ->
  readSCNBig (scnShortForm true buf) = readSCNBig buf.
Proof.
  intros Hb Hlen Hsix Hflag. unfold readSCNBig at 1 3. rewrite Hsix.
  unfold scnExtended in Hflag. rewrite Hflag. clear Hsix.
  open_bytes 8 buf Hlen Hb.
  unfold get in Hflag. cbn in Hflag. rewrite land_0x80 in Hflag.
  apply Z.eqb_eq in Hflag.
  unfold scnShortForm.
  run_codec. read_as_sum. intros Hlt.
  match goal with
  | |- context [?b .& 128 =? 128] => short_again b
  end.
Qed.

(** X2: for each of the two function tables, and a buffer of bytes that
    does not start with six 0xFF: when the SCN read from the buffer is
    written back to it, the buffer is left as it was if it is in the short
    form or holds a value of 2^47 or more; an extended form that holds a
    smaller value is rewritten in the short form, bytes 6 and 7 taking the
    places of the bits 32 to 47.  In both cases the SCN read from the
    buffer afterwards is the same. *)
Theorem writeSCN_readSCN (bigEndian : bool) (buf : list Z) :
  let c := codecOf bigEndian in
  Forall isByte buf ->
  ((if scnExtended bigEndian buf then 8 else 6) <= length buf)%nat ->
  sixFF buf = false ->
  writeSCN c buf (readSCN c buf)
  = (if scnExtended bigEndian buf && (readSCN c buf <? 0x800000000000)
     then scnShortForm bigEndian buf else buf) /\
  readSCN c (writeSCN c buf (readSCN c buf)) = readSCN c buf.
Proof.
  intros c Hb Hlen Hsix.
  assert (Hwrite : writeSCN c buf (readSCN c buf)
            = if scnExtended bigEndian buf && (readSCN c buf <? 0x800000000000)
              then scnShortForm bigEndian buf else buf).
  { subst c. destruct bigEndian; cbn [codecOf readSCN writeSCN bigCodec littleCodec];
      [apply writeSCNBig_readSCNBig | apply writeSCNLittle_readSCNLittle];
      assumption. }
  split; [exact Hwrite |]. rewrite Hwrite.
  destruct (scnExtended bigEndian buf) eqn:Hext; [| reflexivity].
  destruct (Z.ltb_spec (readSCN c buf) 0x800000000000) as [Hlt | _];
    [| reflexivity].
  cbn [andb]. subst c.
  destruct bigEndian; cbn [codecOf readSCN bigCodec littleCodec] in *;
    [apply readSCNBig_scnShortForm | apply readSCNLittle_scnShortForm];
    assumption.
Qed.

Lemma writeSCN_readSCN_witness :
  let buf := [0x12; 0x34; 0x56; 0x78; 0x9A; 0xBC; 0xDE; 0xF0] in
  writeSCN (codecOf false) buf (readSCN (codecOf false) buf) = buf /\
  readSCN (codecOf false) (writeSCN (codecOf false) buf (readSCN (codecOf false) buf))
  = readSCN (codecOf false) buf.
Proof.
  intros buf.
  apply (writeSCN_readSCN false buf).
  - exact isByte_list_8.
  - simpl. lia.
  - reflexivity.
Defined.

(** An extended form that holds a value below 2^47 is not kept: the value
    is written back in the short form. *)
Example writeSCN_readSCN_short :
  readSCNLittle [1; 0; 0; 0; 0; 0x80; 0; 0] = 1 /\
  writeSCNLittle [1; 0; 0; 0; 0; 0x80; 0; 0] 1 = [1; 0; 0; 0; 0; 0; 0; 0].
Proof. split; reflexivity. Qed.

(** The same in the big-endian table, with bits 32 to 47 in use. *)
Example writeSCN_readSCN_short_big :
  readSCNBig [0x80; 0; 0; 0; 0; 1; 0x7F; 0xFF] = 0x7FFF00000001 /\
  writeSCNBig [0x80; 0; 0; 0; 0; 1; 0x7F; 0xFF] 0x7FFF00000001
    = [0x7F; 0xFF; 0; 0; 0; 1; 0x7F; 0xFF] /\
  scnShortForm true [0x80; 0; 0; 0; 0; 1; 0x7F; 0xFF]
    = [0x7F; 0xFF; 0; 0; 0; 1; 0x7F; 0xFF].
Proof. repeat split; reflexivity. Qed.

(** ** Codec: what a write leaves alone *)

Lemma put_length (i : nat) (x : Z) (buf : list Z) :
  length (put i x buf) = length buf.
Proof. apply length_insert. Qed.

Lemma put_drop (n i : nat) (x : Z) (buf : list Z) :
  (i < n)%nat -> drop n (put i x buf) = drop n buf.
Proof. intros H. apply drop_insert_lt. lia. Qed.

Lemma put_isByte (i : nat) (x : Z) (buf : list Z) :
  Forall isByte buf -> Forall isByte (put i x buf).
Proof.
  intros H. apply Forall_insert; [exact H |].
  unfold isByte, u8. apply Z.mod_pos_bound. lia.
Qed.

Lemma touchesOnly_refl (n : nat) (buf : list Z) : touchesOnly n buf buf.
Proof. repeat split; auto. Qed.

Lemma touchesOnly_put (n i : nat) (x : Z) (buf buf' : list Z) :
  (i < n)%nat -> touchesOnly n buf buf' -> touchesOnly n buf (put i x buf').
Proof.
  intros Hi (Hlen & Hdrop & Hbytes). split; [| split].
  - rewrite put_length. exact Hlen.
  - rewrite put_drop by exact Hi. exact Hdrop.
  - intros H. apply put_isByte, Hbytes, H.
Qed.

Ltac touches :=
  repeat (apply touchesOnly_put; [lia |]); apply touchesOnly_refl.

(** X3: for each of the two function tables and whatever value is written: a
    writer keeps the length of the buffer, changes no byte behind the 2,
    4, 7 or 8 (for an SCN 6 or 8) that it assigns, and stores bytes. *)
Theorem codec_write_frame (bigEndian : bool) (buf : list Z) (v : Z) :
  let c := codecOf bigEndian in
  touchesOnly 2 buf (write16 c buf v) /\
  touchesOnly 4 buf (write32 c buf v) /\
  touchesOnly 7 buf (write56 c buf v) /\
  touchesOnly 8 buf (write64 c buf v) /\
  touchesOnly (scnSize v) buf (writeSCN c buf v).
Proof.
  destruct bigEndian; cbn [codecOf write16 write32 write56 write64 writeSCN
    bigCodec littleCodec];
    unfold write16Big, write32Big, write56Big, write64Big, writeSCNBig,
      write16Little, write32Little, write56Little, write64Little,
      writeSCNLittle, scnSize;
    destruct (v <? 0x800000000000);
    do 4 (split; [touches |]); touches.
Qed.

(** ** Codec: the range of what is read *)

Lemma get_isByte (buf : list Z) (i : nat) :
  Forall isByte buf -> isByte (get buf i).
Proof.
  intros H. unfold get. destruct (buf !! i) as [x|] eqn:E.
  - rewrite (list_lookup_total_correct _ _ _ E).
    rewrite Forall_lookup in H. exact (H i x E).
  - rewrite list_lookup_total_alt, E. cbn. unfold isByte. lia.
Qed.

(** Replace the bytes [get buf i] of the goal by variables in range. *)
Ltac abstract_bytes buf Hb :=
  repeat match goal with
  | |- context [get buf ?i] =>
      let b := fresh "b" in
      let H := fresh "Hb" in
      pose proof (get_isByte buf i Hb) as H;
      generalize dependent (get buf i); intros b H
  end;
  unfold isByte in *.

Ltac read_bound :=
  read_as_sum; subst; Z.div_mod_to_equations; lia.

Ltac bound_of buf Hb :=
  unfold read16Little, read16Big, read32Little, read32Big, read56Little,
    read56Big, read64Little, read64Big, shl32, shl64, u16, u32, u64;
  abstract_bytes buf Hb; read_bound.

Ltac scn_bound buf Hb :=
  unfold scnExtended, readSCNLittle, readSCNBig, readSCNrLittle, readSCNrBig;
  destruct (sixFF buf); [left; reflexivity | right];
  unfold shl64, u64; abstract_bytes buf Hb;
  match goal with
  | |- context [if ?c then _ else _] => destruct c
  end;
  [right | left]; (split; [try reflexivity | read_bound]).

(** X4: for each of the two function tables, what is read from a buffer of
    bytes lies in the range of its width; an SCN is [ZERO_SCN], or below
    2^48 in the short form, or below 2^63 in the extended form. *)
Theorem codec_read_range (bigEndian : bool) (buf : list Z) :
  let c := codecOf bigEndian in
  Forall isByte buf ->
  0 <= read16 c buf < 2 ^ 16 /\
  0 <= read32 c buf < 2 ^ 32 /\
  0 <= read56 c buf < 2 ^ 56 /\
  0 <= read64 c buf < 2 ^ 64 /\
  (readSCN c buf = ZERO_SCN \/
   (scnExtended bigEndian buf = false /\ 0 <= readSCN c buf < 2 ^ 48) \/
   (scnExtended bigEndian buf = true /\ 0 <= readSCN c buf < 2 ^ 63)).
Proof.
  intros c Hb. subst c.
  destruct bigEndian; cbn [codecOf read16 read32 read56 read64 readSCN
    bigCodec littleCodec];
    (split; [bound_of buf Hb |]); (split; [bound_of buf Hb |]);
    (split; [bound_of buf Hb |]); (split; [bound_of buf Hb |]);
    scn_bound buf Hb.
Qed.

Lemma codec_read_range_witness :
  let c := codecOf true in
  let buf := [0x12; 0x34; 0x56; 0x78; 0x9A; 0xBC; 0xDE; 0xF0] in
  0 <= read16 c buf < 2 ^ 16 /\
  0 <= read32 c buf < 2 ^ 32 /\
  0 <= read56 c buf < 2 ^ 56 /\
  0 <= read64 c buf < 2 ^ 64 /\
  (readSCN c buf = ZERO_SCN \/
   (scnExtended true buf = false /\ 0 <= readSCN c buf < 2 ^ 48) \/
   (scnExtended true buf = true /\ 0 <= readSCN c buf < 2 ^ 63)).
Proof.
  exact (codec_read_range true
           [0x12; 0x34; 0x56; 0x78; 0x9A; 0xBC; 0xDE; 0xF0] isByte_list_8).
Defined.

(** X5: the relative SCN of a record header, in either table: it is
    [ZERO_SCN], or below 2^48 when the top bit of byte 1 is clear, or
    below 2^63 with the bits 32 to 47 clear when that bit is set. *)
Theorem readSCNr_range (bigEndian : bool) (buf : list Z) :
  let c := codecOf bigEndian in
  Forall isByte buf ->
  readSCNr c buf = ZERO_SCN \/
  (get buf 1 .& 0x80 <> 0x80 /\ 0 <= readSCNr c buf < 2 ^ 48) \/
  (get buf 1 .& 0x80 = 0x80 /\
   0 <= readSCNr c buf < 2 ^ 63 /\ (readSCNr c buf / 2 ^ 32) mod 2 ^ 16 = 0).
Proof.
  intros c Hb. subst c.
  destruct bigEndian; cbn [codecOf readSCNr bigCodec littleCodec];
    unfold readSCNrLittle, readSCNrBig;
    (destruct (sixFF buf); [left; reflexivity | right]);
    unfold shl64, u64;
    (destruct (Z.eqb_spec (get buf 1 .& 0x80) 0x80) as [Hflag | Hflag];
     [right | left]; (split; [exact Hflag |]); clear Hflag);
    abstract_bytes buf Hb; read_as_sum; subst;
    try split; Z.div_mod_to_equations; lia.
Qed.

Lemma readSCNr_range_witness :
  let c := codecOf false in
  let buf := [0x12; 0x34; 0x56; 0x78; 0x9A; 0xBC; 0xDE; 0xF0] in
  readSCNr c buf = ZERO_SCN \/
  (get buf 1 .& 0x80 <> 0x80 /\ 0 <= readSCNr c buf < 2 ^ 48) \/
  (get buf 1 .& 0x80 = 0x80 /\
   0 <= readSCNr c buf < 2 ^ 63 /\ (readSCNr c buf / 2 ^ 32) mod 2 ^ 16 = 0).
Proof.
  exact (readSCNr_range false
           [0x12; 0x34; 0x56; 0x78; 0x9A; 0xBC; 0xDE; 0xF0] isByte_list_8).
Defined.

(** ** Codec: the two byte orders *)

Ltac lor_eq :=
  apply Z.bits_inj'; intros n Hn; rewrite ?Z.lor_spec; btauto.

(** X6: the big-endian readers are the little-endian ones on the bytes in
    reverse; for an SCN the first six bytes and the last two are reversed
    separately. *)
Theorem big_reads_reversed (b0 b1 b2 b3 b4 b5 b6 b7 : Z) :
  read16Big [b0; b1] = read16Little [b1; b0] /\
  read32Big [b0; b1; b2; b3] = read32Little [b3; b2; b1; b0] /\
  read56Big [b0; b1; b2; b3; b4; b5; b6]
    = read56Little [b6; b5; b4; b3; b2; b1; b0] /\
  read64Big [b0; b1; b2; b3; b4; b5; b6; b7]
    = read64Little [b7; b6; b5; b4; b3; b2; b1; b0] /\
  readSCNBig [b0; b1; b2; b3; b4; b5; b6; b7]
    = readSCNLittle [b5; b4; b3; b2; b1; b0; b7; b6].
Proof.
  repeat split; run_codec.
  - f_equal. lor_eq.
  - lor_eq.
  - lor_eq.
  - lor_eq.
  - repeat match goal with
           | |- context [?x =? 255] => destruct (x =? 255)
           end; reflexivity.
Qed.

(** ** Catalog: insertion *)

Lemma descriptor_addToDict (object : OracleObject)
    (m : gmap Z (option OracleObject)) (k : Z) :
  descriptor (addToDict object m) k =
  if decide (k = objn object)
  then Some (default object (descriptor m k))
  else descriptor m k.
Proof.
  unfold addToDict, subscript, descriptor.
  destruct (m !! objn object) as [[other|]|] eqn:E; case_decide; subst;
    rewrite ?lookup_insert_eq, ?lookup_insert_ne by congruence;
    rewrite ?E; reflexivity.
Qed.

(** X7: after [addToDict] the lookup of the object's number finds the
    descriptor that was there first, or else the object; the descriptors
    under all other numbers are as before. *)
Theorem checkDict_addToDict (object : OracleObject) (objd : Z)
    (m : gmap Z (option OracleObject)) :
  fst (checkDict (objn object) objd (addToDict object m))
  = Some (default object (descriptor m (objn object))) /\
  (forall k, k <> objn object ->
     descriptor (addToDict object m) k = descriptor m k).
Proof.
  split.
  - unfold checkDict. rewrite subscript_value, descriptor_addToDict.
    case_decide; [reflexivity | contradiction].
  - intros k Hk. rewrite descriptor_addToDict.
    case_decide; [contradiction | reflexivity].
Qed.

(** X8: a lookup that came first, and left its null entry, changes nothing of
    what a later [addToDict] does to the descriptors. *)
Theorem addToDict_after_checkDict (object : OracleObject) (objn objd : Z)
    (m : gmap Z (option OracleObject)) (k : Z) :
  descriptor (addToDict object (snd (checkDict objn objd m))) k
  = descriptor (addToDict object m) k.
Proof.
  unfold checkDict. rewrite !descriptor_addToDict, subscript_descriptor.
  reflexivity.
Qed.

(** ** Catalog: [addTable] *)

Lemma readColumns_spec (rset : ResultSet ColRow) :
  forall object totalPk totalCols object' totalPk' totalCols',
  0 <= totalPk < 2 ^ 64 -> 0 <= totalCols < 2 ^ 64 ->
  readColumns rset object totalPk totalCols
    = Some (object', totalPk', totalCols') ->
  exists added,
    columns object' = columns object ++ added /\
    totalPk' = (totalPk + sumPk added) mod 2 ^ 64 /\
    totalCols' = (totalCols + Z.of_nat (length added)) mod 2 ^ 64 /\
    objn object' = objn object /\ options object' = options object.
Proof.
  induction rset as [| row rest IH |];
    intros object pk cols o' pk' cols' Hpk Hcols; cbn.
  - intros [= <- <- <-]. exists []. rewrite app_nil_r. cbn.
    rewrite !Z.add_0_r, !Z.mod_small by lia. auto.
  - intros H. apply IH in H as (added & Hc & Hp & Hn & Ho & Hopt);
      try (unfold u64; apply Z.mod_pos_bound; lia).
    eexists (_ :: added). cbn [addColumn columns objn options] in *.
    rewrite Hc, <- app_assoc. split; [reflexivity |].
    cbn [sumPk foldr length numPk]. fold (sumPk added). unfold u64 in *.
    split; [| split; [| auto]].
    + rewrite Hp, Zplus_mod_idemp_l. f_equal. lia.
    + rewrite Hn, Zplus_mod_idemp_l. f_equal. lia.
  - discriminate.
Qed.

Lemma addTableRows_descriptor (columnsOf : Z -> ResultSet ColRow) (opts : Z)
    (rset : ResultSet TabRow) :
  forall tabCnt m k o,
  descriptor (fst (addTableRows columnsOf opts rset tabCnt m)) k = Some o ->
  descriptor m k = Some o \/
  (objn o = k /\ options o = opts /\
   totalCols o = Z.of_nat (length (columns o)) mod 2 ^ 64 /\
   totalPk o = sumPk (columns o) mod 2 ^ 64).
Proof.
  induction rset as [| row rest IH |]; intros tabCnt m k o; cbn; auto.
  destruct (t_objd row) as [objd|]; [| apply IH].
  destruct (readColumns _ _ 0 0) as [[[object totalPk] totalCols]|] eqn:E;
    cbn; auto.
  intros H. apply IH in H as [H | H]; [| auto].
  rewrite descriptor_addToDict in H. case_decide as Hk; [| auto].
  destruct (descriptor m k) as [other|]; cbn in H; [auto |].
  injection H as <-. right.
  apply readColumns_spec in E as (added & Hc & Hp & Hn & Ho & Hopt); [| lia | lia].
  cbn in Hc, Hp, Hn, Ho, Hopt. cbn. subst k.
  rewrite Hc, Hp, Hn. auto.
Qed.

Lemma addTableRows_keeps (columnsOf : Z -> ResultSet ColRow) (opts : Z)
    (rset : ResultSet TabRow) :
  forall tabCnt m k o,
  descriptor m k = Some o ->
  descriptor (fst (addTableRows columnsOf opts rset tabCnt m)) k = Some o.
Proof.
  induction rset as [| row rest IH |]; intros tabCnt m k o Hk; cbn; auto.
  destruct (t_objd row) as [objd|]; [| apply IH, Hk].
  destruct (readColumns _ _ 0 0) as [[[object totalPk] totalCols]|];
    cbn; auto.
  apply IH. rewrite descriptor_addToDict, Hk. case_decide; reflexivity.
Qed.

(** X9: [addTable] changes no descriptor that the catalog holds: a table that
    is found again keeps its first descriptor. *)
Theorem addTable_keeps (db : Database) (mask : string) (opts : Z)
    (m : gmap Z (option OracleObject)) (k : Z) (o : OracleObject) :
  descriptor m k = Some o ->
  descriptor (fst (addTable db mask opts m)) k = Some o.
Proof. apply addTableRows_keeps. Qed.

(** X10: a descriptor that [addTable] adds is stored under its own object
    number, carries the options of the call, and its two totals are the
    number of its columns and the sum of their [numPk], modulo 2^64. *)
Theorem addTable_descriptor (db : Database) (mask : string) (opts : Z)
    (m : gmap Z (option OracleObject)) (k : Z) (o : OracleObject) :
  descriptor (fst (addTable db mask opts m)) k = Some o ->
  descriptor m k = Some o \/
  (objn o = k /\ options o = opts /\
   totalCols o = Z.of_nat (length (columns o)) mod 2 ^ 64 /\
   totalPk o = sumPk (columns o) mod 2 ^ 64).
Proof. apply addTableRows_descriptor. Qed.

(** X11: [addTable] keeps the catalog keyed by object number. *)
Theorem addTable_keyed (db : Database) (mask : string) (opts : Z)
    (m : gmap Z (option OracleObject)) :
  keyed m -> keyed (fst (addTable db mask opts m)).
Proof.
  intros Hm k o Hk.
  apply addTableRows_descriptor in Hk as [Hk | (Hk & _)]; [apply Hm |]; exact Hk.
Qed.

Lemma addTable_keeps_witness :
  let old := newOracleObject 7000 6999 1 0 0 "SCOTT" "EMP_OLD" in
  descriptor (fst (addTable scenarioDatabase "SCOTT.%" 0 {[7000 := Some old]})) 7000
  = Some old.
Proof.
  intros old.
  apply (addTable_keeps scenarioDatabase "SCOTT.%" 0 {[7000 := Some old]} 7000 old).
  reflexivity.
Defined.

Lemma addTable_descriptor_witness :
  let o :=
    setTotals 1 1
      (addColumn
         {| colNo := 1; segColNo := 1; columnName := "EMPNO"; typeNo := 2;
            columnLength := 22; precision := 4; scale := -1; numPk := 1;
            nullable := false |}
         (newOracleObject 7000 7001 0 0 5 "SCOTT" "EMP")) in
  descriptor ∅ 7000 = Some o \/
  (objn o = 7000 /\ options o = 5 /\
   totalCols o = Z.of_nat (length (columns o)) mod 2 ^ 64 /\
   totalPk o = sumPk (columns o) mod 2 ^ 64).
Proof.
  apply (addTable_descriptor scenarioDatabase "SCOTT.%" 5 ∅ 7000).
  vm_compute. reflexivity.
Defined.

Lemma addTable_keyed_witness :
  keyed (fst (addTable scenarioDatabase "SCOTT.%" 0 ∅)).
Proof.
  apply (addTable_keyed scenarioDatabase "SCOTT.%" 0 ∅).
  intros k o H. unfold descriptor in H. rewrite lookup_empty in H.
  discriminate H.
Defined.

(** ** Checkpoint: what a save leaves alone *)

(** X12: [writeCheckpoint] touches one file and one field: every other file is
    as before, and so are the name, the position, the incarnation, the
    open transactions and the archive queue of the reader.  When the file
    cannot be opened, nothing at all changes. *)
Theorem writeCheckpoint_frame (atShutdown : bool) (now : Z)
    (r : OracleReader) (fs : Files) :
  let r' := fst (writeCheckpoint atShutdown now r fs) in
  let fs' := snd (writeCheckpoint atShutdown now r fs) in
  (forall p, p <> checkpointPath (database r) ->
     contents fs' !! p = contents fs !! p) /\
  unwritable fs' = unwritable fs /\
  database r' = database r /\
  databaseSequence r' = databaseSequence r /\
  databaseScn r' = databaseScn r /\
  resetlogs r' = resetlogs r /\
  transactionHeap r' = transactionHeap r /\
  archiveRedoQueue r' = archiveRedoQueue r /\
  (if bool_decide (checkpointPath (database r) ∈ unwritable fs)
   then r' = r /\ fs' = fs
   else previousCheckpoint r' = now).
Proof.
  unfold writeCheckpoint. case_bool_decide; cbn.
  - repeat split; reflexivity.
  - repeat split; try reflexivity.
    intros p Hp. rewrite lookup_insert_ne by congruence. reflexivity.
Qed.

(** ** Checkpoint: a save that is loaded again *)

Lemma checkpointText_length (c : Checkpoint) :
  (String.length (checkpointText c) =? 0)%nat = false.
Proof. reflexivity. Qed.

Lemma checkpointDocument_lookup (c : Checkpoint) :
  checkpointDocument c !! "database" = Some (JString (cp_database c)) /\
  checkpointDocument c !! "sequence" = Some (JUint64 (cp_sequence c)) /\
  checkpointDocument c !! "resetlogs" = Some (JUint64 (cp_resetlogs c)) /\
  checkpointDocument c !! "scn" = Some (JUint64 (cp_scn c)).
Proof.
  unfold checkpointDocument. repeat split;
    rewrite ?lookup_insert_ne by discriminate; apply lookup_insert_eq.
Qed.

(** X13: where the parser returns the four members of the text that was
    written, a reader of the same database that loads the file after
    [writeCheckpoint] resumes at the saved sequence, with the scn and the
    incarnation of the reader that wrote; sequence and incarnation are
    cut to 32 bits. *)
Theorem readCheckpoint_writeCheckpoint
    (Parse : string -> option (gmap string JValue))
    (atShutdown : bool) (now : Z) (r r0 : OracleReader) (fs : Files) :
  let c := {| cp_database := database r; cp_sequence := savedSequence r;
              cp_scn := databaseScn r; cp_resetlogs := resetlogs r |} in
  Parse (checkpointText c) = Some (checkpointDocument c) ->
  checkpointPath (database r) ∉ unwritable fs ->
  database r0 = database r ->
  exists r1,
    readCheckpoint Parse r0 (snd (writeCheckpoint atShutdown now r fs)) = Some r1 /\
    databaseSequence r1 = u32 (savedSequence r) /\
    databaseScn r1 = databaseScn r /\
    resetlogs r1 = u32 (resetlogs r).
Proof.
  intros c Hparse Hopen Hname. unfold writeCheckpoint, readCheckpoint.
  rewrite bool_decide_eq_false_2 by exact Hopen. cbn [snd contents].
  rewrite Hname, lookup_insert_eq. fold (savedSequence r). fold c.
  rewrite checkpointText_length, Hparse.
  destruct (checkpointDocument_lookup c) as (Hd & Hs & Hr & Hn).
  unfold getJSONfield.
  rewrite Hd. cbn [mbind option_bind GetString].
  rewrite String.eqb_refl. cbn [negb].
  rewrite Hs. cbn [mbind option_bind GetUint64].
  rewrite Hr. cbn [mbind option_bind GetUint64].
  rewrite Hn. cbn [mbind option_bind GetUint64].
  eexists. split; [reflexivity |]. cbn. auto.
Qed.

Lemma readCheckpoint_writeCheckpoint_witness :
  let r := scenarioReader 200
             [{| firstSequence := 195 |}; {| firstSequence := 198 |}] in
  exists r1,
    readCheckpoint
      (parseOnly {| cp_database := "ORCL"; cp_sequence := 195;
                    cp_scn := 4000; cp_resetlogs := 1 |})
      (scenarioReader 0 []) (snd (writeCheckpoint true 10 r noFiles))
    = Some r1 /\
    databaseSequence r1 = u32 (savedSequence r) /\
    databaseScn r1 = 4000 /\
    resetlogs r1 = u32 1.
Proof.
  apply (readCheckpoint_writeCheckpoint
           (parseOnly {| cp_database := "ORCL"; cp_sequence := 195;
                         cp_scn := 4000; cp_resetlogs := 1 |})
           true 10
           (scenarioReader 200
              [{| firstSequence := 195 |}; {| firstSequence := 198 |}])
           (scenarioReader 0 []) noFiles).
  - unfold parseOnly. vm_compute. reflexivity.
  - simpl. apply not_elem_of_empty.
  - reflexivity.
Defined.

(** ** Checkpoint: the interval *)

(** X14: with a clock that did not run backwards, [checkForCheckpoint] saves
    exactly when more whole seconds than [checkpointInterval] have passed
    since the last save, and otherwise changes nothing. *)
Theorem checkForCheckpoint_threshold (CLOCKS_PER_SEC checkpointInterval : Z)
    (now later : Z) (r : OracleReader) (fs : Files) :
  0 < CLOCKS_PER_SEC ->
  0 <= checkpointInterval ->
  0 <= now - previousCheckpoint r < 2 ^ 64 * CLOCKS_PER_SEC ->
  checkForCheckpoint CLOCKS_PER_SEC checkpointInterval now later r fs
  = if (checkpointInterval + 1) * CLOCKS_PER_SEC <=? now - previousCheckpoint r
    then writeCheckpoint false later r fs
    else (r, fs).
Proof.
  intros Hcps Hint Hnow. unfold checkForCheckpoint, u64.
  rewrite Z.quot_div_nonneg by lia.
  set (e := now - previousCheckpoint r) in *.
  assert (Hq : 0 <= e / CLOCKS_PER_SEC < 2 ^ 64).
  { split; [apply Z.div_pos; lia |]. apply Z.div_lt_upper_bound; lia. }
  rewrite Z.mod_small by exact Hq.
  destruct (Z.gtb_spec (e / CLOCKS_PER_SEC) checkpointInterval) as [Hgt | Hle];
    destruct (Z.leb_spec ((checkpointInterval + 1) * CLOCKS_PER_SEC) e)
      as [Hge | Hlt]; try reflexivity; exfalso.
  - assert (e / CLOCKS_PER_SEC < checkpointInterval + 1)
      by (apply Z.div_lt_upper_bound; lia).
    lia.
  - assert (checkpointInterval + 1 <= e / CLOCKS_PER_SEC)
      by (apply Z.div_le_lower_bound; lia).
    lia.
Qed.

Lemma checkForCheckpoint_threshold_witness :
  checkForCheckpoint 1000000 10 12000000 12000001 (scenarioReader 200 []) noFiles
  = if (10 + 1) * 1000000 <=? 12000000 - 0
    then writeCheckpoint false 12000001 (scenarioReader 200 []) noFiles
    else (scenarioReader 200 [], noFiles).
Proof.
  apply (checkForCheckpoint_threshold 1000000 10 12000000 12000001
           (scenarioReader 200 []) noFiles); simpl; lia.
Defined.

(** ** Bootstrap *)

(** The cases of the [try] block: the row and each of its tests. *)
Ltac query_cases db r :=
  unfold queryDatabase;
  destruct (db_info db) as [| row rest |]; cbn [fst snd];
  [ | destruct (String.eqb_spec (LOG_MODE row) "ARCHIVELOG"); cbn [negb fst snd];
      [ destruct (String.eqb_spec (SUPPLEMENTAL_LOG_MIN row) "YES");
        cbn [negb fst snd];
        [ destruct (String.eqb (ENDIANNESS row) "Big");
          cbn [resetlogs set_bigEndian];
          (destruct (Z.eqb_spec (resetlogs r) 0);
           destruct (Z.eqb_spec (RESETLOGS_ID row) (resetlogs r));
           cbn [negb andb fst snd];
           try (destruct (index 0 "Oracle Database 11g" (VERSION row));
                [| destruct (db_conId db)]; cbn [fst snd]))
        | ]
      | ]
  | ].

Lemma queryDatabase_position (db : Database) (r : OracleReader) :
  databaseSequence (snd (queryDatabase db r)) = databaseSequence r /\
  databaseScn (snd (queryDatabase db r)) = databaseScn r.
Proof. query_cases db r; split; reflexivity. Qed.

Lemma queryDatabase_codec (db : Database) (r : OracleReader) :
  codec r = codecOf (bigEndian r) ->
  codec (snd (queryDatabase db r)) = codecOf (bigEndian (snd (queryDatabase db r))) /\
  (bigEndian r = true -> bigEndian (snd (queryDatabase db r)) = true).
Proof. intros H. query_cases db r; split; cbn; auto. Qed.

Lemma queryDatabase_passed (db : Database) (r : OracleReader) (scn : Z) :
  fst (queryDatabase db r) = Some scn ->
  exists row rest,
    db_info db = rsRow row rest /\
    LOG_MODE row = "ARCHIVELOG" /\
    SUPPLEMENTAL_LOG_MIN row = "YES" /\
    scn = CURRENT_SCN row /\
    resetlogs (snd (queryDatabase db r)) = RESETLOGS_ID row.
Proof.
  query_cases db r; try discriminate;
    intros [= <-]; exists row, rest; cbn; auto.
Qed.

Lemma queryDatabase_passes (db : Database) (r : OracleReader)
    (row : DatabaseRow) (rest : ResultSet DatabaseRow) :
  db_info db = rsRow row rest ->
  LOG_MODE row = "ARCHIVELOG" ->
  SUPPLEMENTAL_LOG_MIN row = "YES" ->
  resetlogs r = 0 \/ RESETLOGS_ID row = resetlogs r ->
  index 0 "Oracle Database 11g" (VERSION row) <> None \/ db_conId db <> rsThrow ->
  fst (queryDatabase db r) = Some (CURRENT_SCN row).
Proof.
  intros Hinfo Hmode Hsup Hinc Hcon. unfold queryDatabase.
  rewrite Hinfo, Hmode, Hsup. cbn [String.eqb Ascii.eqb Bool.eqb negb].
  set (r1 := if String.eqb (ENDIANNESS row) "Big" then set_bigEndian r else r).
  assert (Hr1 : resetlogs r1 = resetlogs r)
    by (subst r1; destruct (String.eqb _ _); reflexivity).
  rewrite Hr1.
  assert (Hpass : negb (resetlogs r =? 0)
                  && negb (RESETLOGS_ID row =? resetlogs r) = false).
  { destruct (Z.eqb_spec (resetlogs r) 0); [reflexivity |].
    destruct (Z.eqb_spec (RESETLOGS_ID row) (resetlogs r)); [reflexivity |].
    destruct Hinc; contradiction. }
  rewrite Hpass.
  destruct (index 0 _ (VERSION row)); [reflexivity |].
  destruct (db_conId db); try reflexivity.
  destruct Hcon; contradiction.
Qed.

(** X15: without a connection, without a row, or with a row that fails the
    test of ARCHIVELOG mode or of supplemental logging, [initialize]
    returns 0 and leaves the reader as it was. *)
Theorem initialize_refused (db : Database) (r : OracleReader) :
  db_connected db = false \/
  (forall row rest, db_info db = rsRow row rest ->
     LOG_MODE row <> "ARCHIVELOG" \/ SUPPLEMENTAL_LOG_MIN row <> "YES") ->
  initialize db r = (0, r).
Proof.
  intros [Hconn | Hrow]; unfold initialize.
  - rewrite Hconn. reflexivity.
  - destruct (db_connected db); [| reflexivity]. cbn [negb].
    unfold queryDatabase.
    destruct (db_info db) as [| row rest |]; try reflexivity.
    destruct (Hrow row rest eq_refl) as [H | H].
    + destruct (String.eqb_spec (LOG_MODE row) "ARCHIVELOG"); [contradiction |].
      reflexivity.
    + destruct (String.eqb (LOG_MODE row) "ARCHIVELOG"); [| reflexivity].
      destruct (String.eqb_spec (SUPPLEMENTAL_LOG_MIN row) "YES");
        [contradiction | reflexivity].
Qed.

Lemma initialize_refused_witness :
  initialize
    {| db_connected := false; db_info := rsEnd; db_conId := rsEnd;
       db_currentLog := rsEnd; db_tables := fun _ => rsEnd;
       db_columns := fun _ => rsEnd; db_archivedLogs := fun _ _ => rsEnd |}
    (scenarioReader 200 [])
  = (0, scenarioReader 200 []).
Proof.
  apply (initialize_refused
           {| db_connected := false; db_info := rsEnd; db_conId := rsEnd;
              db_currentLog := rsEnd; db_tables := fun _ => rsEnd;
              db_columns := fun _ => rsEnd;
              db_archivedLogs := fun _ _ => rsEnd |}
           (scenarioReader 200 [])).
  left. reflexivity.
Defined.

(** The steps of [initialize] behind the [try] block. *)
Ltac after_query r' :=
  destruct ((databaseSequence r' =? 0) || (databaseScn r' =? 0));
    [destruct (db_currentLog _) |]; cbn;
    repeat match goal with
           | |- context [if ?b then _ else _] => destruct b
           end; cbn.

(** X16: [initialize] keeps the function table in step with the flag
    [bigEndian], and never turns a big-endian reader back. *)
Theorem initialize_codec (db : Database) (r : OracleReader) :
  codec r = codecOf (bigEndian r) ->
  codec (snd (initialize db r)) = codecOf (bigEndian (snd (initialize db r))) /\
  (bigEndian r = true -> bigEndian (snd (initialize db r)) = true).
Proof.
  intros H. destruct (queryDatabase_codec db r H) as [Hc Hb].
  unfold initialize. destruct (db_connected db); cbn [negb snd]; [| auto].
  destruct (queryDatabase db r) as [[scn|] r']; cbn [snd] in *; [| auto].
  after_query r'; auto.
Qed.

Lemma initialize_codec_witness :
  codec (snd (initialize scenarioDatabase (scenarioReader 200 [])))
  = codecOf (bigEndian (snd (initialize scenarioDatabase (scenarioReader 200 [])))) /\
  (bigEndian (scenarioReader 200 []) = true ->
   bigEndian (snd (initialize scenarioDatabase (scenarioReader 200 []))) = true).
Proof.
  apply (initialize_codec scenarioDatabase (scenarioReader 200 [])).
  reflexivity.
Defined.

(** X17: when [initialize] returns 1, the connection stands, the row of the
    database passed the tests of ARCHIVELOG mode and supplemental logging,
    the reader has the incarnation of that row, and its sequence and scn
    are not 0. *)
Theorem initialize_success (db : Database) (r : OracleReader) :
  fst (initialize db r) = 1 ->
  db_connected db = true /\
  databaseSequence (snd (initialize db r)) <> 0 /\
  databaseScn (snd (initialize db r)) <> 0 /\
  exists row rest,
    db_info db = rsRow row rest /\
    LOG_MODE row = "ARCHIVELOG" /\
    SUPPLEMENTAL_LOG_MIN row = "YES" /\
    resetlogs (snd (initialize db r)) = RESETLOGS_ID row.
Proof.
  unfold initialize.
  destruct (db_connected db); cbn [negb fst snd]; [| discriminate].
  destruct (queryDatabase db r) as [[scn|] r'] eqn:E; [| discriminate].
  pose proof (queryDatabase_passed db r scn) as Hp. rewrite E in Hp.
  destruct (Hp eq_refl) as (row & rest & Hi & Hm & Hs & _ & Hr). cbn [snd] in Hr.
  set (r2 := if (databaseSequence r' =? 0) || (databaseScn r' =? 0)
             then match db_currentLog db with
                  | rsRow seq _ => set_databaseScn scn (set_databaseSequence seq r')
                  | _ => r'
                  end
             else r').
  assert (Hr2 : resetlogs r2 = resetlogs r').
  { subst r2. destruct (_ || _); [destruct (db_currentLog db) |]; reflexivity. }
  destruct (Z.eqb_spec (databaseSequence r2) 0); [discriminate |].
  destruct (Z.eqb_spec (databaseScn r2) 0); [discriminate |].
  cbn. intros _. repeat split; try assumption.
  exists row, rest. rewrite Hr2. auto.
Qed.

Lemma initialize_success_witness :
  let r := set_resetlogs 0 (scenarioReader 0 []) in
  db_connected scenarioDatabase = true /\
  databaseSequence (snd (initialize scenarioDatabase r)) <> 0 /\
  databaseScn (snd (initialize scenarioDatabase r)) <> 0 /\
  exists row rest,
    db_info scenarioDatabase = rsRow row rest /\
    LOG_MODE row = "ARCHIVELOG" /\
    SUPPLEMENTAL_LOG_MIN row = "YES" /\
    resetlogs (snd (initialize scenarioDatabase r)) = RESETLOGS_ID row.
Proof.
  apply (initialize_success scenarioDatabase
           (set_resetlogs 0 (scenarioReader 0 []))).
  vm_compute. reflexivity.
Defined.

(** X18: a reader that has both a sequence and an scn keeps them through
    [initialize], whatever the database answers. *)
Theorem initialize_keeps_position (db : Database) (r : OracleReader) :
  databaseSequence r <> 0 -> databaseScn r <> 0 ->
  databaseSequence (snd (initialize db r)) = databaseSequence r /\
  databaseScn (snd (initialize db r)) = databaseScn r.
Proof.
  intros Hseq Hscn. destruct (queryDatabase_position db r) as [Hs Hc].
  unfold initialize. destruct (db_connected db); cbn [negb snd]; [| auto].
  destruct (queryDatabase db r) as [[scn|] r']; cbn [snd] in *; [| auto].
  rewrite Hs, Hc.
  destruct (Z.eqb_spec (databaseSequence r) 0); [contradiction |].
  destruct (Z.eqb_spec (databaseScn r) 0); [contradiction |].
  cbn. rewrite Hs, Hc.
  destruct (Z.eqb_spec (databaseSequence r) 0); [contradiction |].
  destruct (Z.eqb_spec (databaseScn r) 0); [contradiction |].
  cbn. auto.
Qed.

Lemma initialize_keeps_position_witness :
  databaseSequence (snd (initialize scenarioDatabase (scenarioReader 200 []))) = 200 /\
  databaseScn (snd (initialize scenarioDatabase (scenarioReader 200 []))) = 4000.
Proof.
  apply (initialize_keeps_position scenarioDatabase (scenarioReader 200 []));
    simpl; lia.
Defined.

(** X19: a reader that lacks the sequence or the scn takes both from the
    database, the sequence of the current log and the current scn, once
    the [try] block has passed; it returns 1 unless one of the two is 0. *)
Theorem initialize_resolves_position (db : Database) (r : OracleReader)
    (row : DatabaseRow) (rest : ResultSet DatabaseRow)
    (seq : Z) (logs : ResultSet Z) :
  db_connected db = true ->
  db_info db = rsRow row rest ->
  LOG_MODE row = "ARCHIVELOG" ->
  SUPPLEMENTAL_LOG_MIN row = "YES" ->
  resetlogs r = 0 \/ RESETLOGS_ID row = resetlogs r ->
  index 0 "Oracle Database 11g" (VERSION row) <> None \/ db_conId db <> rsThrow ->
  databaseSequence r = 0 \/ databaseScn r = 0 ->
  db_currentLog db = rsRow seq logs ->
  databaseSequence (snd (initialize db r)) = seq /\
  databaseScn (snd (initialize db r)) = CURRENT_SCN row /\
  fst (initialize db r) = (if (seq =? 0) || (CURRENT_SCN row =? 0) then 0 else 1).
Proof.
  intros Hconn Hinfo Hmode Hsup Hinc Hcon Hpos Hlog.
  pose proof (queryDatabase_passes db r row rest Hinfo Hmode Hsup Hinc Hcon) as Hq.
  destruct (queryDatabase_position db r) as [Hs Hc].
  unfold initialize. rewrite Hconn. cbn [negb].
  destruct (queryDatabase db r) as [[scn|] r']; cbn [fst snd] in *;
    [| discriminate].
  injection Hq as ->. rewrite Hs, Hc, Hlog.
  assert (Hz : (databaseSequence r =? 0) || (databaseScn r =? 0) = true).
  { destruct Hpos as [-> | ->]; [reflexivity | apply orb_true_r]. }
  rewrite Hz. cbn.
  destruct ((seq =? 0) || (CURRENT_SCN row =? 0)); cbn; auto.
Qed.

Lemma initialize_resolves_position_witness :
  let r := set_resetlogs 0 (set_databaseScn 0 (scenarioReader 0 [])) in
  databaseSequence (snd (initialize scenarioDatabase r)) = 60 /\
  databaseScn (snd (initialize scenarioDatabase r)) = 5000 /\
  fst (initialize scenarioDatabase r) = 1.
Proof.
  apply (initialize_resolves_position scenarioDatabase
           (set_resetlogs 0 (set_databaseScn 0 (scenarioReader 0 [])))
           _ _ 60 rsEnd eq_refl eq_refl eq_refl eq_refl).
  - left. reflexivity.
  - right. discriminate.
  - left. reflexivity.
  - reflexivity.
Defined.

(** ** Scheduler: what a pass of the archive loop dispatches *)

Section ArchiveDispatch.

Variables REDO_OK REDO_WRONG_SEQUENCE_SWITCHED : Z.
Variable processLog :
  OracleReaderRedo -> OracleReader -> Files -> Z * OracleReader * Files.
Variable clone : OracleReaderRedo -> OracleReaderRedo -> OracleReaderRedo.
Variable now : Z.

#[local] Abbreviation body :=
  (archiveBody REDO_OK REDO_WRONG_SEQUENCE_SWITCHED processLog clone now).
#[local] Abbreviation loop :=
  (archiveLoop REDO_OK REDO_WRONG_SEQUENCE_SWITCHED processLog clone now).

(** X20: a pass through the body of the archive loop gives at most one handle
    to [processLog], and only a handle of the expected sequence, and only
    when the [shutdown] flag was not set. *)
Theorem archiveBody_dispatches (s : RunState) (top : OracleReaderRedo)
    (rest : list OracleReaderRedo) :
  dispatched (stateOf (body s top rest)) = dispatched s \/
  exists h,
    dispatched (stateOf (body s top rest)) = dispatched s ++ [h] /\
    sequence h = databaseSequence (reader s) /\
    shutdown (reader s) = false.
Proof.
  unfold archiveBody.
  set (h := topRedo REDO_WRONG_SEQUENCE_SWITCHED clone s top).
  cbn [looked reader files dispatched set_archiveRedoQueue databaseSequence
       shutdown].
  destruct (Z.ltb_spec (sequence h) (databaseSequence (reader s)));
    [left; reflexivity |].
  destruct (Z.gtb_spec (sequence h) (databaseSequence (reader s)));
    [left; reflexivity |].
  destruct (shutdown (reader s)) eqn:Hsh; [left; reflexivity |].
  right. exists h.
  destruct (processLog h _ _) as [[code r'] fs'].
  destruct (negb (code =? REDO_OK)); cbn.
  - repeat split; [lia].
  - destruct (writeCheckpoint false now _ fs') as [r'' fs'']. cbn.
    repeat split; [lia].
Qed.

(** ** Scheduler: a queue in sequence is read to its end *)

Lemma writeCheckpoint_reader (atShutdown : bool) (t : Z)
    (r : OracleReader) (fs : Files) :
  archiveRedoQueue (fst (writeCheckpoint atShutdown t r fs)) = archiveRedoQueue r /\
  databaseSequence (fst (writeCheckpoint atShutdown t r fs)) = databaseSequence r /\
  shutdown (fst (writeCheckpoint atShutdown t r fs)) = shutdown r.
Proof. unfold writeCheckpoint. case_bool_decide; repeat split. Qed.

(** The log reader reads every log to its end and leaves the queue, the
    expected sequence and the [shutdown] flag alone. *)
Hypothesis processLog_ok :
  forall redo r fs,
  exists r' fs',
    processLog redo r fs = (REDO_OK, r', fs') /\
    archiveRedoQueue r' = archiveRedoQueue r /\
    databaseSequence r' = databaseSequence r /\
    shutdown r' = shutdown r.

Hypothesis clone_sequence :
  forall redo redoPrev,
  sequence redoPrev = sequence redo ->
  sequence (clone redo redoPrev) = sequence redo.

Lemma archiveBody_reads (s : RunState) (top : OracleReaderRedo)
    (rest : list OracleReaderRedo) :
  sequence top = databaseSequence (reader s) ->
  shutdown (reader s) = false ->
  0 <= databaseSequence (reader s) < 2 ^ 32 - 1 ->
  exists s1 h,
    body s top rest = Continue s1 /\
    archiveRedoQueue (reader s1) = rest /\
    databaseSequence (reader s1) = databaseSequence (reader s) + 1 /\
    shutdown (reader s1) = false /\
    dispatched s1 = dispatched s ++ [h] /\
    sequence h = sequence top.
Proof.
  intros Hseq Hsh Hrange. unfold archiveBody.
  set (h := topRedo REDO_WRONG_SEQUENCE_SWITCHED clone s top).
  assert (Hh : sequence h = sequence top)
    by apply (topRedo_sequence REDO_WRONG_SEQUENCE_SWITCHED clone clone_sequence).
  cbn [looked reader files dispatched set_archiveRedoQueue databaseSequence
       shutdown].
  rewrite Hh, Hseq, Z.ltb_irrefl, Hsh.
  destruct (Z.gtb_spec (databaseSequence (reader s)) (databaseSequence (reader s)));
    [lia |].
  match goal with
  | |- context [processLog h ?r0 ?fs0] =>
      destruct (processLog_ok h r0 fs0) as (r' & fs' & -> & Hq & Hd & Hs)
  end.
  rewrite Z.eqb_refl. cbn [negb].
  set (r2 := set_databaseSequence (u32 (databaseSequence r' + 1)) r').
  destruct (writeCheckpoint_reader false now r2 fs') as (Hq2 & Hd2 & Hs2).
  destruct (writeCheckpoint false now r2 fs') as [r3 fs3]. cbn [fst] in *.
  eexists _, h. split; [reflexivity |]. cbn.
  rewrite Hq2, Hd2, Hs2. subst r2. cbn. rewrite Hq, Hd, Hs. cbn.
  unfold u32. rewrite Z.mod_small by lia. repeat split; auto; congruence.
Qed.

Lemma archiveLoop_reads (q : list OracleReaderRedo) :
  forall (s : RunState) (fuel : nat),
  archiveRedoQueue (reader s) = q ->
  sequence <$> q = seqZ (databaseSequence (reader s)) (Z.of_nat (length q)) ->
  shutdown (reader s) = false ->
  0 <= databaseSequence (reader s) ->
  databaseSequence (reader s) + Z.of_nat (length q) < 2 ^ 32 ->
  (length q <= fuel)%nat ->
  exists s',
    loop fuel s = Left (Continue s') /\
    archiveRedoQueue (reader s') = [] /\
    databaseSequence (reader s')
      = databaseSequence (reader s) + Z.of_nat (length q) /\
    sequence <$> dispatched s' = (sequence <$> dispatched s) ++ (sequence <$> q).
Proof.
  induction q as [| top rest IH]; intros s fuel Hq Hseqs Hsh Hlo Hhi Hfuel.
  - exists s. destruct fuel; cbn; rewrite Hq; cbn;
      rewrite Z.add_0_r, app_nil_r; auto.
  - destruct fuel as [| fuel]; [cbn in Hfuel; lia |].
    cbn [length] in *. rewrite seqZ_cons in Hseqs by lia.
    cbn [fmap list_fmap] in Hseqs. injection Hseqs as Htop Hrest.
    destruct (archiveBody_reads s top rest Htop Hsh ltac:(lia))
      as (s1 & h & Hbody & Hq1 & Hd1 & Hs1 & Hdisp & Hh).
    cbn [archiveLoop]. rewrite Hq, Hbody.
    destruct (IH s1 fuel Hq1) as (s' & Hloop & Hq' & Hd' & Hdisp');
      try lia; try assumption.
    + rewrite Hd1, Hrest. f_equal; lia.
    + exists s'. split; [exact Hloop |]. split; [exact Hq' |].
      split; [lia |].
      rewrite Hdisp', Hdisp, fmap_app, <- app_assoc. cbn. rewrite Hh. reflexivity.
Qed.

(** X21: when the log reader reads every log to its end, the queue holds the
    expected sequence and the ones that follow it, one handle each, and no
    shutdown is asked for, the archive loop ends on the empty queue; every
    handle was given to the log reader, in order, and the expected
    sequence has moved behind the last one. *)
Theorem archiveLoop_consumes (s : RunState) (fuel : nat) :
  let q := archiveRedoQueue (reader s) in
  sequence <$> q = seqZ (databaseSequence (reader s)) (Z.of_nat (length q)) ->
  shutdown (reader s) = false ->
  0 <= databaseSequence (reader s) ->
  databaseSequence (reader s) + Z.of_nat (length q) < 2 ^ 32 ->
  (length q <= fuel)%nat ->
  exists s',
    loop fuel s = Left (Continue s') /\
    archiveRedoQueue (reader s') = [] /\
    databaseSequence (reader s')
      = databaseSequence (reader s) + Z.of_nat (length q) /\
    sequence <$> dispatched s' = (sequence <$> dispatched s) ++ (sequence <$> q).
Proof. intros q. apply archiveLoop_reads. reflexivity. Qed.

End ArchiveDispatch.

Lemma archiveLoop_consumes_witness :
  let s :=
    {| reader :=
         set_archiveRedoQueue
           [{| group := 0; path := "/arch1/o1_100.arc"; sequence := 100;
               firstScn := 4000; nextScn := 4500 |};
            {| group := 0; path := "/arch1/o1_101.arc"; sequence := 101;
               firstScn := 4500; nextScn := 4900 |}]
           (scenarioReader 100 []);
       files := noFiles; redo := None; ret := 0;
       logsProcessed := false; dispatched := [] |} in
  exists s',
    archiveLoop 0 4 processLogOk cloneKeep 10 2 s = Left (Continue s') /\
    archiveRedoQueue (reader s') = [] /\
    databaseSequence (reader s') = 100 + 2 /\
    sequence <$> dispatched s' = [] ++ [100; 101].
Proof.
  intros s.
  apply (archiveLoop_consumes 0 4 processLogOk cloneKeep 10
           (fun redo r fs =>
              ex_intro _ r (ex_intro _ fs
                (conj eq_refl (conj eq_refl (conj eq_refl eq_refl)))))
           (fun redo redoPrev _ => eq_refl) s 2).
  - reflexivity.
  - reflexivity.
  - simpl. lia.
  - simpl. lia.
  - simpl. lia.
Defined.

(** ** Scheduler: the search for the online log *)

Lemma findOnline_snoc (set : list OracleReaderRedo) (h : OracleReaderRedo) (d : Z) :
  findOnline (set ++ [h]) d
  = if sequence h =? d then Some h else findOnline set d.
Proof. unfold findOnline. rewrite foldl_snoc. reflexivity. Qed.

(** X22: the search returns the last handle, in the order of the iteration,
    that holds the expected sequence, and none when no handle holds it. *)
Theorem findOnline_last (set : list OracleReaderRedo) (d : Z) :
  findOnline set d = last (filter (fun h => sequence h = d) set).
Proof.
  induction set as [| h set IH] using rev_ind; [reflexivity |].
  rewrite findOnline_snoc, filter_app, IH.
  destruct (Z.eqb_spec (sequence h) d) as [Heq | Hne].
  - rewrite filter_cons_True by exact Heq. cbn. apply eq_sym, last_snoc.
  - rewrite filter_cons_False by exact Hne. cbn. rewrite app_nil_r. reflexivity.
Qed.

Lemma scanOnline_snoc (set : list OracleReaderRedo) (h : OracleReaderRedo)
    (d : Z) (isHigher : bool) (redo : option OracleReaderRedo) :
  scanOnline (set ++ [h]) d isHigher redo
  = (if sequence h >? d then true else fst (scanOnline set d isHigher redo),
     if sequence h =? d then Some h else snd (scanOnline set d isHigher redo)).
Proof.
  unfold scanOnline. rewrite foldl_snoc.
  destruct (foldl _ _ set) as [higher found]. reflexivity.
Qed.

Lemma findOnline_None (set : list OracleReaderRedo) (d : Z) :
  findOnline set d = None <-> forall h, h ∈ set -> sequence h <> d.
Proof.
  induction set as [| h set IH] using rev_ind.
  - split; [| reflexivity]. intros _ h Hh. inversion Hh.
  - rewrite findOnline_snoc.
    destruct (Z.eqb_spec (sequence h) d) as [Heq | Hne]; split.
    + discriminate.
    + intros Hall. exfalso. apply (Hall h); [| exact Heq].
      apply elem_of_app. right. apply list_elem_of_here.
    + intros Hnone x Hx. apply elem_of_app in Hx as [Hx | Hx].
      * apply IH; assumption.
      * apply list_elem_of_singleton in Hx as ->. exact Hne.
    + intros Hall. apply IH. intros x Hx. apply Hall, elem_of_app. auto.
Qed.

Lemma scanOnline_snd (set : list OracleReaderRedo) (d : Z) :
  snd (scanOnline set d false None) = findOnline set d.
Proof.
  induction set as [| h set IH] using rev_ind; [reflexivity |].
  rewrite scanOnline_snoc, findOnline_snoc, IH. reflexivity.
Qed.

Lemma scanOnline_fst (set : list OracleReaderRedo) (d : Z) :
  fst (scanOnline set d false None) = true <->
  exists h, h ∈ set /\ d < sequence h.
Proof.
  induction set as [| h set IH] using rev_ind.
  - cbn. split; [discriminate |]. intros (h & Hh & _). inversion Hh.
  - rewrite scanOnline_snoc. cbn [fst].
    destruct (Z.gtb_spec (sequence h) d) as [Hgt | Hle].
    + split; [| reflexivity]. intros _. exists h.
      split; [apply elem_of_app; right; apply list_elem_of_here | lia].
    + rewrite IH. split.
      * intros (x & Hx & Hd). exists x.
        split; [apply elem_of_app; left; exact Hx | exact Hd].
      * intros (x & Hx & Hd). apply elem_of_app in Hx as [Hx | Hx].
        -- exists x. auto.
        -- apply list_elem_of_singleton in Hx as ->. lia.
Qed.

(** X23: the search of the wait loop finds the same handle as the first search,
    and it sees a later sequence exactly when some handle holds one; so
    the reader sleeps exactly when every online log is older than the
    expected sequence. *)
Theorem scanOnline_idle (set : list OracleReaderRedo) (d : Z) :
  snd (scanOnline set d false None) = findOnline set d /\
  (fst (scanOnline set d false None) = true <->
   exists h, h ∈ set /\ d < sequence h) /\
  (scanOnline set d false None = (false, None) <->
   forall h, h ∈ set -> sequence h < d).
Proof.
  pose proof (scanOnline_snd set d) as Hs.
  pose proof (scanOnline_fst set d) as Hf.
  pose proof (findOnline_None set d) as Hn.
  split; [exact Hs |]. split; [exact Hf |].
  destruct (scanOnline set d false None) as [higher found]. cbn [fst snd] in *.
  split.
  - intros [= -> ->] h Hh.
    assert (sequence h <> d) by (apply Hn; [symmetry; exact Hs | exact Hh]).
    assert (~ d < sequence h).
    { intros Hd. assert (false = true) by (apply Hf; eauto). discriminate. }
    lia.
  - intros Hall. f_equal.
    + destruct higher; [| reflexivity].
      destruct (proj1 Hf eq_refl) as (h & Hh & Hd). specialize (Hall h Hh). lia.
    + rewrite Hs. apply Hn. intros h Hh. specialize (Hall h Hh). lia.
Qed.

(** ** Online logs: one readable member for every group *)

Lemma onlineLogRows_spec (fileExists : string -> bool)
    (rset : ResultSet LogfileRow) :
  forall groupLast group set groupLast' group' set',
  onlineLogRows fileExists rset groupLast group set
    = (None, groupLast', group', set') ->
  exists added,
    set' = set ++ added /\
    (forall g p, (g, p) ∈ added ->
       fileExists p = true /\
       {| lf_group := g; lf_member := p |} ∈ rsRows rset) /\
    (groupLast' = groupLast \/ exists p, (groupLast', p) ∈ added) /\
    (group' = group \/ group = groupLast \/ exists p, (group, p) ∈ added) /\
    (forall row, row ∈ rsRows rset ->
       lf_group row = group' \/ lf_group row = groupLast \/
       exists p, (lf_group row, p) ∈ added).
Proof.
  induction rset as [| row rest IH |];
    intros gl g set gl' g' set'; cbn [onlineLogRows rsRows].
  - intros [= <- <- <-]. exists []. rewrite app_nil_r.
    repeat split; auto; intros; exfalso; eapply not_elem_of_nil; eauto.
  - destruct row as [x path]. cbn [lf_group lf_member].
    destruct (negb (g =? gl) && negb (x =? g)) eqn:Hthrow; [discriminate |].
    assert (Hnt : g = gl \/ x = g).
    { destruct (Z.eqb_spec g gl); [auto |].
      destruct (Z.eqb_spec x g); [auto | discriminate]. }
    destruct (negb (x =? gl) && fileExists path) eqn:Hins.
    + apply andb_prop in Hins as [_ Hfile].
      intros H. apply IH in H as (added & -> & Hin & Hgl & Hc & Ha).
      exists ((x, path) :: added). rewrite <- app_assoc. split; [reflexivity |].
      split; [| split; [| split]].
      * intros a p Hp. apply elem_of_cons in Hp as [[= -> ->] | Hp].
        -- split; [exact Hfile | apply list_elem_of_here].
        -- destruct (Hin a p Hp) as [Hf Hr].
           split; [exact Hf | apply list_elem_of_further, Hr].
      * right. destruct Hgl as [-> | [p Hp]].
        -- exists path. apply list_elem_of_here.
        -- exists p. apply list_elem_of_further, Hp.
      * destruct Hnt as [-> | <-]; [auto |].
        right. right. exists path. apply list_elem_of_here.
      * intros row Hrow. apply elem_of_cons in Hrow as [-> | Hrow].
        -- right. right. exists path. apply list_elem_of_here.
        -- destruct (Ha row Hrow) as [H | [H | [p Hp]]]; [auto | |].
           ++ right. right. exists path. rewrite H. apply list_elem_of_here.
           ++ right. right. exists p. apply list_elem_of_further, Hp.
    + intros H. apply IH in H as (added & -> & Hin & Hgl & Hc & Ha).
      exists added. split; [reflexivity |].
      split; [| split; [| split]].
      * intros a p Hp. destruct (Hin a p Hp) as [Hf Hr].
        split; [exact Hf | apply list_elem_of_further, Hr].
      * exact Hgl.
      * destruct Hnt as [-> | <-]; [auto | exact Hc].
      * intros row Hrow. apply elem_of_cons in Hrow as [-> | Hrow];
          [| apply Ha, Hrow].
        cbn [lf_group]. destruct Hc as [-> | Hc]; auto.
  - discriminate.
Qed.

(** X24: when [onlineLogGetList] returns, and no group has the number -1, every
    group of the list has a handle in the set; each handle that was added
    is a member of the list whose file exists. *)
Theorem onlineLogGetList_covers (fileExists : string -> bool)
    (rset : ResultSet LogfileRow) (set set' : list (Z * string)) :
  onlineLogGetList fileExists rset set = (None, set') ->
  (forall row, row ∈ rsRows rset -> lf_group row <> -1) ->
  exists added,
    set' = set ++ added /\
    (forall row, row ∈ rsRows rset -> exists p, (lf_group row, p) ∈ added) /\
    (forall g p, (g, p) ∈ added ->
       fileExists p = true /\
       {| lf_group := g; lf_member := p |} ∈ rsRows rset).
Proof.
  unfold onlineLogGetList.
  destruct (onlineLogRows fileExists rset (-1) (-1) set)
    as [[[[e|] gl'] g'] s'] eqn:E; [discriminate |].
  destruct (Z.eqb_spec g' gl') as [-> | Hne]; [| discriminate].
  cbn [negb]. intros [= <-] Hgroups.
  apply onlineLogRows_spec in E as (added & -> & Hin & Hgl & _ & Ha).
  exists added. split; [reflexivity |]. split; [| exact Hin].
  intros row Hrow. specialize (Hgroups row Hrow).
  destruct (Ha row Hrow) as [H | [H | H]]; [| contradiction | exact H].
  destruct Hgl as [Hgl | Hgl]; [congruence |]. rewrite H. exact Hgl.
Qed.

Lemma onlineLogRows_distinct (fileExists : string -> bool)
    (rset : ResultSet LogfileRow) :
  forall groupLast group set,
  groupLast <= group ->
  Forall (fun row => group <= lf_group row) (rsRows rset) ->
  StronglySorted Z.le (lf_group <$> rsRows rset) ->
  exists added,
    (onlineLogRows fileExists rset groupLast group set).2 = set ++ added /\
    Forall (fun h => groupLast < h.1) added /\
    NoDup (added.*1).
Proof.
  induction rset as [| row rest IH |]; intros gl g set Hle Hge Hsorted;
    cbn [onlineLogRows rsRows] in *.
  - exists []. rewrite app_nil_r. repeat constructor.
  - destruct row as [x path]. cbn [lf_group lf_member fmap list_fmap] in *.
    apply Forall_cons in Hge as [Hx Hge]. cbn [lf_group] in Hx.
    apply StronglySorted_inv in Hsorted as [Hsorted Hall].
    assert (Hrest : Forall (fun row => x <= lf_group row) (rsRows rest)).
    { rewrite Forall_fmap in Hall. exact Hall. }
    destruct (negb (g =? gl) && negb (x =? g)).
    { exists []. rewrite app_nil_r. repeat constructor. }
    destruct (negb (x =? gl) && fileExists path) eqn:Hins.
    + apply andb_prop in Hins as [Hne _].
      apply negb_true_iff in Hne. apply Z.eqb_neq in Hne.
      destruct (IH x x (set ++ [(x, path)])) as (added & Hset & Hlt & Hnd);
        [lia | exact Hrest | exact Hsorted |].
      exists ((x, path) :: added). rewrite Hset, <- app_assoc.
      split; [reflexivity |]. split.
      * constructor; [cbn; lia |].
        eapply Forall_impl; [exact Hlt |]. cbn. intros; lia.
      * cbn. constructor; [| exact Hnd].
        intros Hin. apply list_elem_of_fmap in Hin as (h & Hh & Hin).
        rewrite Forall_forall in Hlt. specialize (Hlt h Hin). lia.
    + destruct (IH gl x set) as (added & Hset & Hlt & Hnd);
        [lia | exact Hrest | exact Hsorted |].
      exists added. auto.
  - exists []. rewrite app_nil_r. repeat constructor.
Qed.

(** X25: with the list ordered by group, as the query asks, no two of the
    handles that [onlineLogGetList] adds are of the same group, also when
    it throws. *)
Theorem onlineLogGetList_distinct (fileExists : string -> bool)
    (rset : ResultSet LogfileRow) (set : list (Z * string)) :
  StronglySorted Z.le (lf_group <$> rsRows rset) ->
  (forall row, row ∈ rsRows rset -> -1 <= lf_group row) ->
  exists added,
    (onlineLogGetList fileExists rset set).2 = set ++ added /\
    NoDup (added.*1).
Proof.
  intros Hsorted Hge.
  destruct (onlineLogRows_distinct fileExists rset (-1) (-1) set)
    as (added & Hset & _ & Hnd);
    [lia | apply Forall_forall; exact Hge | exact Hsorted |].
  exists added. split; [| exact Hnd].
  unfold onlineLogGetList.
  destruct (onlineLogRows fileExists rset (-1) (-1) set)
    as [[[[e|] gl'] g'] s']; cbn [snd] in *; [exact Hset |].
  destruct (negb (g' =? gl')); exact Hset.
Qed.

Lemma onlineLogRows_succeeds (fileExists : string -> bool)
    (rset : ResultSet LogfileRow) :
  forall groupLast group set,
  rsComplete rset = true ->
  StronglySorted Z.le (lf_group <$> rsRows rset) ->
  Forall (fun row => group <= lf_group row) (rsRows rset) ->
  groupLast <= group ->
  (group = groupLast \/
   exists row, row ∈ rsRows rset /\ lf_group row = group /\
               fileExists (lf_member row) = true) ->
  (forall row, row ∈ rsRows rset -> lf_group row <> group ->
   exists row', row' ∈ rsRows rset /\ lf_group row' = lf_group row /\
                fileExists (lf_member row') = true) ->
  exists g set',
    onlineLogRows fileExists rset groupLast group set = (None, g, g, set').
Proof.
  induction rset as [| row rest IH |];
    intros gl g set Hend Hsorted Hge Hle Hpend Hcov;
    cbn [onlineLogRows rsRows rsComplete] in *.
  - destruct Hpend as [-> | (row & Hrow & _)]; [eauto |]. inversion Hrow.
  - destruct row as [x path]. cbn [lf_group lf_member fmap list_fmap] in *.
    apply Forall_cons in Hge as [Hx Hge]. cbn [lf_group] in Hx.
    apply StronglySorted_inv in Hsorted as [Hsorted Hall].
    assert (Hrest : Forall (fun row => x <= lf_group row) (rsRows rest)).
    { rewrite Forall_fmap in Hall. exact Hall. }
    assert (Hcov' : forall row, row ∈ rsRows rest -> lf_group row <> x ->
              exists row', row' ∈ rsRows rest /\ lf_group row' = lf_group row /\
                           fileExists (lf_member row') = true).
    { intros row Hrow Hne.
      destruct (Hcov row) as (row' & Hin & Heq & Hf).
      - apply list_elem_of_further, Hrow.
      - rewrite Forall_forall in Hrest. specialize (Hrest row Hrow). lia.
      - apply elem_of_cons in Hin as [-> | Hin]; [| eauto].
        cbn in Heq. congruence. }
    assert (Hnt : g = gl \/ x = g).
    { destruct Hpend as [-> | (row & Hrow & Hg & _)]; [auto |].
      apply elem_of_cons in Hrow as [-> | Hrow]; [auto |].
      rewrite Forall_forall in Hrest. specialize (Hrest row Hrow).
      right. lia. }
    replace (negb (g =? gl) && negb (x =? g)) with false
      by (destruct Hnt as [-> | ->]; rewrite Z.eqb_refl;
          [reflexivity | apply eq_sym, andb_false_r]).
    destruct (negb (x =? gl) && fileExists path) eqn:Hins.
    + apply (IH x x); auto. lia.
    + apply (IH gl x); auto; [lia |].
      destruct (Z.eq_dec x gl) as [| Hne]; [auto | right].
      assert (Hfile : fileExists path = false).
      { apply andb_false_iff in Hins as [Hins | Hins]; [| exact Hins].
        apply negb_false_iff, Z.eqb_eq in Hins. contradiction. }
      destruct (Z.eq_dec x g) as [-> | Hxg].
      * destruct Hpend as [-> | (row & Hrow & Hg & Hf)]; [contradiction |].
        apply elem_of_cons in Hrow as [-> | Hrow]; [| eauto].
        cbn in Hf. congruence.
      * destruct (Hcov {| lf_group := x; lf_member := path |})
          as (row' & Hin & Heq & Hf); [apply list_elem_of_here | exact Hxg |].
        apply elem_of_cons in Hin as [-> | Hin]; [| eauto].
        cbn in Hf. congruence.
  - discriminate.
Qed.

(** X26: with the list ordered by group and delivered to its end,
    [onlineLogGetList] returns without an exception when every group of
    the list has a member whose file exists. *)
Theorem onlineLogGetList_succeeds (fileExists : string -> bool)
    (rset : ResultSet LogfileRow) (set : list (Z * string)) :
  rsComplete rset = true ->
  StronglySorted Z.le (lf_group <$> rsRows rset) ->
  (forall row, row ∈ rsRows rset -> -1 <= lf_group row) ->
  (forall row, row ∈ rsRows rset ->
   exists row', row' ∈ rsRows rset /\ lf_group row' = lf_group row /\
                fileExists (lf_member row') = true) ->
  (onlineLogGetList fileExists rset set).1 = None.
Proof.
  intros Hend Hsorted Hge Hcov.
  destruct (onlineLogRows_succeeds fileExists rset (-1) (-1) set)
    as (g & set' & E); auto.
  - apply Forall_forall. exact Hge.
  - lia.
  - unfold onlineLogGetList. rewrite E, Z.eqb_refl. reflexivity.
Qed.

Lemma scenarioLogfiles_rows (P : LogfileRow -> Prop) :
  P {| lf_group := 1; lf_member := "/fra/redo01b.log" |} ->
  P {| lf_group := 1; lf_member := "/u01/redo01a.log" |} ->
  P {| lf_group := 2; lf_member := "/fra/redo02b.log" |} ->
  P {| lf_group := 2; lf_member := "/u01/redo02a.log" |} ->
  forall row, row ∈ rsRows scenarioLogfiles -> P row.
Proof.
  intros H1 H2 H3 H4 row Hrow. cbn in Hrow.
  repeat (apply elem_of_cons in Hrow as [-> | Hrow]; [assumption |]).
  inversion Hrow.
Qed.

Lemma scenarioLogfiles_sorted :
  StronglySorted Z.le (lf_group <$> rsRows scenarioLogfiles).
Proof. cbn. repeat constructor; lia. Qed.

Lemma onlineLogGetList_covers_witness :
  exists added,
    [(1, "/u01/redo01a.log"); (2, "/u01/redo02a.log")] = [] ++ added /\
    (forall row, row ∈ rsRows scenarioLogfiles ->
       exists p, (lf_group row, p) ∈ added) /\
    (forall g p, (g, p) ∈ added ->
       scenarioExists p = true /\
       {| lf_group := g; lf_member := p |} ∈ rsRows scenarioLogfiles).
Proof.
  apply (onlineLogGetList_covers scenarioExists scenarioLogfiles []
           [(1, "/u01/redo01a.log"); (2, "/u01/redo02a.log")]).
  - reflexivity.
  - apply scenarioLogfiles_rows; cbn; lia.
Defined.

Lemma onlineLogGetList_distinct_witness :
  exists added,
    (onlineLogGetList scenarioExists scenarioLogfiles []).2 = [] ++ added /\
    NoDup (added.*1).
Proof.
  apply (onlineLogGetList_distinct scenarioExists scenarioLogfiles []).
  - exact scenarioLogfiles_sorted.
  - apply scenarioLogfiles_rows; cbn; lia.
Defined.

Lemma onlineLogGetList_succeeds_witness :
  (onlineLogGetList scenarioExists scenarioLogfiles []).1 = None.
Proof.
  apply (onlineLogGetList_succeeds scenarioExists scenarioLogfiles []).
  - reflexivity.
  - exact scenarioLogfiles_sorted.
  - apply scenarioLogfiles_rows; cbn; lia.
  - apply scenarioLogfiles_rows; cbn [lf_group].
    + exists {| lf_group := 1; lf_member := "/u01/redo01a.log" |}.
      split; [cbn; set_solver | split; reflexivity].
    + exists {| lf_group := 1; lf_member := "/u01/redo01a.log" |}.
      split; [cbn; set_solver | split; reflexivity].
    + exists {| lf_group := 2; lf_member := "/u01/redo02a.log" |}.
      split; [cbn; set_solver | split; reflexivity].
    + exists {| lf_group := 2; lf_member := "/u01/redo02a.log" |}.
      split; [cbn; set_solver | split; reflexivity].
Defined.

(** A group none of whose members can be read makes [onlineLogGetList]
    throw; the handles of the groups before it are already in the set. *)
Example onlineLogGetList_unreadable_group :
  onlineLogGetList (fun path => String.prefix "/u01/redo01" path)
    scenarioLogfiles []
  = (Some CantReadMember, [(1, "/u01/redo01a.log")]).
Proof. reflexivity. Qed.

(** ** Scheduler: a pass of the online loop *)

Section OnlineDispatch.

Variables REDO_OK REDO_WRONG_SEQUENCE_SWITCHED : Z.
Variable processLogOnline :
  OracleReaderRedo -> OracleReader -> Files ->
  Z * OracleReaderRedo * OracleReader * Files.
Variable clone : OracleReaderRedo -> OracleReaderRedo -> OracleReaderRedo.
Variable now : Z.

#[local] Abbreviation dispatch :=
  (onlineDispatch REDO_OK REDO_WRONG_SEQUENCE_SWITCHED processLogOnline now).

(** X27: when the log reader leaves the expected sequence alone, a pass of the
    online loop moves it by one (modulo 2^32) if the pass runs to the end
    of the body, and not at all if it ends in a [break] or a [throw]; a
    pass that runs to the end gave the handle to the log reader and got
    [REDO_OK]. *)
Theorem onlineDispatch_sequence (s : RunState) (found : OracleReaderRedo) :
  (forall redo r fs,
     databaseSequence (processLogOnline redo r fs).1.2 = databaseSequence r) ->
  match dispatch s found with
  | Continue s' =>
      databaseSequence (reader s') = u32 (databaseSequence (reader s) + 1) /\
      ret s' = REDO_OK /\
      dispatched s' = dispatched s ++ [found]
  | Break s' | Throw s' =>
      databaseSequence (reader s') = databaseSequence (reader s)
  end.
Proof.
  intros Hkeep. unfold onlineDispatch.
  destruct (shutdown (reader s)); [reflexivity |].
  specialize (Hkeep found (reader s) (files s)).
  destruct (processLogOnline found (reader s) (files s))
    as [[[code redo'] r'] fs']. cbn [fst snd] in Hkeep.
  destruct (Z.eqb_spec code REDO_OK) as [-> | Hne]; cbn [negb].
  - destruct (shutdown r'); [exact Hkeep |].
    pose proof (writeCheckpoint_reader false now
                  (set_databaseSequence (u32 (databaseSequence r' + 1)) r') fs')
      as (_ & Hseq & _).
    destruct (writeCheckpoint false now _ fs') as [r'' fs''].
    cbn [fst reader ret dispatched] in *. rewrite Hseq. cbn.
    rewrite Hkeep. auto.
  - destruct (code =? REDO_WRONG_SEQUENCE_SWITCHED); exact Hkeep.
Qed.

(** X28: an online log that was overwritten while it was read is handed to the
    archive phase: the pass ends in a [break], and when the archived log
    on top of the queue holds the same sequence, it is cloned from the
    online handle as the log reader left it. *)
Theorem onlineDispatch_handoff (db : Database) (s : RunState)
    (found redo' top : OracleReaderRedo) (r' : OracleReader) (fs' : Files) :
  REDO_OK <> REDO_WRONG_SEQUENCE_SWITCHED ->
  shutdown (reader s) = false ->
  processLogOnline found (reader s) (files s)
    = (REDO_WRONG_SEQUENCE_SWITCHED, redo', r', fs') ->
  sequence redo' = sequence top ->
  exists s',
    dispatch s found = Break s' /\
    dispatched s' = dispatched s ++ [found] /\
    topRedo REDO_WRONG_SEQUENCE_SWITCHED clone (archiveEntry db s') top
      = clone top redo'.
Proof.
  intros Hcodes Hrun Hlog Hseq. unfold onlineDispatch.
  rewrite Hrun, Hlog.
  destruct (Z.eqb_spec REDO_WRONG_SEQUENCE_SWITCHED REDO_OK) as [Heq | _];
    [congruence |].
  cbn [negb]. rewrite Z.eqb_refl. eexists. split; [reflexivity |].
  split; [reflexivity |].
  unfold topRedo. cbn [archiveEntry redo ret].
  rewrite Z.eqb_refl, Hseq, Z.eqb_refl. reflexivity.
Qed.

End OnlineDispatch.

Lemma onlineDispatch_sequence_witness :
  match onlineDispatch 0 4 processLogOnlineOk 10 (scenarioOnline 100)
          {| group := 1; path := "/u01/redo01a.log"; sequence := 100;
             firstScn := 4000; nextScn := 4500 |} with
  | Continue s' =>
      databaseSequence (reader s')
        = u32 (databaseSequence (reader (scenarioOnline 100)) + 1) /\
      ret s' = 0 /\
      dispatched s'
        = dispatched (scenarioOnline 100)
          ++ [{| group := 1; path := "/u01/redo01a.log"; sequence := 100;
                 firstScn := 4000; nextScn := 4500 |}]
  | Break s' | Throw s' =>
      databaseSequence (reader s')
        = databaseSequence (reader (scenarioOnline 100))
  end.
Proof.
  apply (onlineDispatch_sequence 0 4 processLogOnlineOk 10 (scenarioOnline 100)).
  reflexivity.
Defined.

Lemma onlineDispatch_handoff_witness :
  let online := {| group := 1; path := "/u01/redo01a.log"; sequence := 100;
                   firstScn := 4000; nextScn := 4500 |} in
  let top := {| group := 0; path := "/arch1/o1_100.arc"; sequence := 100;
                firstScn := 4000; nextScn := 4500 |} in
  exists s',
    onlineDispatch 0 4 processLogSwitched 10 (scenarioOnline 100) online
      = Break s' /\
    dispatched s' = dispatched (scenarioOnline 100) ++ [online] /\
    topRedo 4 cloneKeep (archiveEntry scenarioDatabase s') top
      = cloneKeep top online.
Proof.
  intros online top.
  apply (onlineDispatch_handoff 0 4 processLogSwitched cloneKeep 10
           scenarioDatabase (scenarioOnline 100) online online top
           (scenarioReader 100 []) noFiles).
  - lia.
  - reflexivity.
  - reflexivity.
  - reflexivity.
Defined.

(** ** Archive queue: what [archLogGetList] adds *)

Lemma pq_push_perm (x : OracleReaderRedo) (q : list OracleReaderRedo) :
  pq_push x q ≡ₚ x :: q.
Proof.
  induction q as [| y q IH]; cbn; [reflexivity |].
  destruct (sequence x <? sequence y); [reflexivity |].
  rewrite IH. apply Permutation_swap.
Qed.

Lemma pushArchRows_perm (rset : ResultSet ArchRow) :
  forall q, pushArchRows rset q ≡ₚ q ++ (archRedo <$> rsRows rset).
Proof.
  induction rset as [| row rest IH |]; intros q; cbn [pushArchRows rsRows].
  - rewrite app_nil_r. reflexivity.
  - rewrite IH, pq_push_perm. cbn [fmap list_fmap].
    fold (archRedo row). cbn [app]. apply Permutation_middle.
  - rewrite app_nil_r. reflexivity.
Qed.

(** X29: [archLogGetList] keeps the handles that are in the queue and adds one
    handle for each row that the query delivers, also when the query ends
    in an exception; a queue that was in the order of the sequences is so
    afterwards, with a smallest sequence on top. *)
Theorem archLogGetList_queue (db : Database) (r : OracleReader) :
  StronglySorted seq_le (archiveRedoQueue r) ->
  let rows := rsRows (db_archivedLogs db (databaseSequence r) (resetlogs r)) in
  let q' := archiveRedoQueue (archLogGetList db r) in
  q' ≡ₚ archiveRedoQueue r ++ (archRedo <$> rows) /\
  StronglySorted seq_le q' /\
  (forall top x, pq_top q' = Some top -> x ∈ q' -> sequence top <= sequence x).
Proof.
  intros Hsorted rows q'.
  assert (Hq : StronglySorted seq_le q').
  { subst q'. destruct r. cbn. apply pushArchRows_sorted, Hsorted. }
  split; [| split; [exact Hq |]].
  - subst q' rows. destruct r. cbn. apply pushArchRows_perm.
  - intros top x Htop Hx. eapply pq_top_least; eassumption.
Qed.

Lemma archLogGetList_queue_witness :
  let r := scenarioReader 100 [] in
  let rows :=
    rsRows (db_archivedLogs scenarioDatabase (databaseSequence r) (resetlogs r)) in
  let q' := archiveRedoQueue (archLogGetList scenarioDatabase r) in
  q' ≡ₚ archiveRedoQueue r ++ (archRedo <$> rows) /\
  StronglySorted seq_le q' /\
  (forall top x, pq_top q' = Some top -> x ∈ q' -> sequence top <= sequence x).
Proof.
  apply (archLogGetList_queue scenarioDatabase (scenarioReader 100 [])).
  constructor.
Defined.
